(** * Talkorithm: a shallow embedding of the relay worker, the persistence
  queries, the relay client, the application shell and the whiteboard.

  Strings are Rocq [string]s, one character for each UTF-16 code unit of
  the JavaScript string: the strings of the model are the JavaScript strings
  whose code units are all below 256, and the character 160 is the no-break
  space U+00A0.  Numbers that the program only compares or copies (HTTP
  status codes, millisecond time stamps, indices) are [Z].  An optional
  property ([x?: T], or a value that may be [undefined]/[null]) is an
  [option]. *)

From Stdlib Require Import String Ascii List ZArith QArith Qround Bool Lia.
From Stdlib Require Import Permutation Sorted.
Import ListNotations.
Open Scope string_scope.
Open Scope Z_scope.

(** ** The fragments of the JavaScript library the program relies on *)

Module JS.

(** The line feed written [\n] in the source. *)
Definition LF : string := String (ascii_of_nat 10) EmptyString.

(** Truthiness of a string: only the empty string is falsy. *)
Definition truthy (s : string) : bool := negb (s =? "")%string.

(** Truthiness of a possibly undefined string. *)
Definition truthy_opt (o : option string) : bool :=
  match o with
  | Some s => truthy s
  | None => false
  end.

(** [o ?? d] *)
Definition nullish {A : Type} (o : option A) (d : A) : A :=
  match o with
  | Some a => a
  | None => d
  end.

(** [o?.f], for a field [f] that may itself be undefined. *)
Definition chain {A B : Type} (o : option A) (f : A -> option B) : option B :=
  match o with
  | Some a => f a
  | None => None
  end.

(** [s.split(sep)] for a separator of one character: the fields between
    the occurrences of [sep], in order; a string without [sep] is its own
    single field. *)
Fixpoint split (sep : ascii) (s : string) : list string :=
  match s with
  | EmptyString => [EmptyString]
  | String c s' =>
      if Ascii.eqb c sep then EmptyString :: split sep s'
      else match split sep s' with
           | [] => [String c EmptyString]
           | field :: fields => String c field :: fields
           end
  end.

(** [l.join(sep)] *)
Definition join (sep : string) (l : list string) : string :=
  String.concat sep l.

(** [l.map((x, index) => f x index)], the index counted from [start]. *)
Fixpoint mapi_from {A B : Type} (start : Z) (f : A -> Z -> B) (l : list A)
  : list B :=
  match l with
  | [] => []
  | x :: l' => f x start :: mapi_from (start + 1) f l'
  end.

Definition mapi {A B : Type} (f : A -> Z -> B) (l : list A) : list B :=
  mapi_from 0 f l.

(** The white space and line terminators of the language among the code
    units below 256, which [trim] strips and [\s] matches: tab, line feed,
    vertical tab, form feed, carriage return, space and no-break space.  The
    others (U+1680, U+2000 to U+200A, U+2028, U+2029, U+202F, U+205F, U+3000,
    U+FEFF) are code units that the strings of the model do not hold. *)
Definition is_space (c : ascii) : bool :=
  let n := nat_of_ascii c in
  ((9 <=? n)%nat && (n <=? 13)%nat) || (n =? 32)%nat || (n =? 160)%nat.

Fixpoint trim_start (s : string) : string :=
  match s with
  | EmptyString => EmptyString
  | String c s' => if is_space c then trim_start s' else s
  end.

(** Drops trailing white space: a character is kept when it is not white
    space or when something is kept after it. *)
Fixpoint trim_end (s : string) : string :=
  match s with
  | EmptyString => EmptyString
  | String c s' =>
      match trim_end s' with
      | EmptyString => if is_space c then EmptyString else String c EmptyString
      | kept => String c kept
      end
  end.

(** [s.trim()] *)
Definition trim (s : string) : string := trim_end (trim_start s).

(** [s.slice(0, n)]: the first [n] code units, or all of [s] when it is
    shorter. *)
Fixpoint slice0 (n : nat) (s : string) : string :=
  match n, s with
  | O, _ => EmptyString
  | S _, EmptyString => EmptyString
  | S n', String c s' => String c (slice0 n' s')
  end.

(** [s.replace(/\s+/g, " ")]: every maximal run of white space becomes one
    space; [inRun] tells whether the character before was white space. *)
Fixpoint replace_spaces_from (inRun : bool) (s : string) : string :=
  match s with
  | EmptyString => EmptyString
  | String c s' =>
      if is_space c then
        if inRun then replace_spaces_from true s'
        else String " " (replace_spaces_from true s')
      else String c (replace_spaces_from false s')
  end.

Definition replace_spaces (s : string) : string := replace_spaces_from false s.

(** [s.startsWith(p)] *)
Definition startsWith (p s : string) : bool := String.prefix p s.

End JS.

(** ** The relay worker (the [fetch] handler and [corsHeaders]) *)

Module Relay.
Import JS.

(** [Env]: the secret is absent when the binding is not configured. *)
Record Env := { GEMINI_API_KEY : option string }.

Record Message := { role : string; content : string }.

Record RequestPayload := {
  system : string;
  memory : string;
  imageDataUrl : option string;
  messages : list Message
}.

(** What the handler reads of the incoming request: its method, its
    [Origin] header ([request.headers.get("Origin")]) and its body as
    [request.json()] sees it, [None] when the body is not JSON and the
    promise rejects.  A parsed body is a payload of the declared shape; JSON
    of another shape, on which [payload.messages.map] throws once a
    credential is found, has no counterpart here. *)
Record Request := {
  method : string;
  Origin : option string;
  json : option RequestPayload
}.

(** One element of [parts]: [{ text }] or [{ inlineData: { mimeType, data } }]. *)
Inductive Part :=
| Text (text : string)
| InlineData (mimeType data : string).

Record Content := { g_role : string; parts : list Part }.

Record GenerationConfig := {
  temperature : Q;
  topP : Q;
  maxOutputTokens : Z
}.

(** The outbound call: the URL and the JSON body handed to the upstream
    endpoint ([systemInstruction] is the list of its [parts]). *)
Record GeminiRequest := {
  url : string;
  upstream_method : string;
  upstream_headers : list (string * string);
  systemInstruction : list Part;
  contents : list Content;
  generationConfig : GenerationConfig
}.

(** The upstream answer as the handler reads it: every level that the
    handler reaches through [?.] may be missing. *)
Record GeminiPart := { part_text : option string }.
Record GeminiContent := { content_parts : option (list GeminiPart) }.
Record GeminiCandidate := { candidate_content : option GeminiContent }.
Record GeminiData := { candidates : option (list GeminiCandidate) }.

(** [geminiResponse]: its status, its body as [text()] reads it (the
    failure path) and as [json()] reads it (the success path), [None] when
    the body is not JSON and the promise rejects. *)
Record GeminiResponse := {
  upstream_status : Z;
  upstream_text : string;
  upstream_json : option GeminiData
}.

(** [geminiResponse.ok]: the status is in the range 200-299. *)
Definition ok (r : GeminiResponse) : bool :=
  (200 <=? upstream_status r) && (upstream_status r <=? 299).

(** The body given to [new Response]: [null], a string, or
    [JSON.stringify({ text })]. *)
Inductive Body :=
| NullBody
| TextBody (s : string)
| JsonTextBody (text : string).

(** A response with the headers the handler passes to the constructor. *)
Record Response := {
  status : Z;
  headers : list (string * string);
  body : Body
}.

(** The handler resolves to a response or rejects. *)
Inductive Outcome :=
| Returned (r : Response)
| Thrown.

Definition corsHeaders (request : Request) : list (string * string) :=
  let origin := nullish (Origin request) "*" in
  [ ("Access-Control-Allow-Origin", origin);
    ("Access-Control-Allow-Methods", "POST, OPTIONS");
    ("Access-Control-Allow-Headers", "Content-Type") ].

(** The template literal of the system instruction. *)
Definition systemInstructionText (payload : RequestPayload) : string :=
  system payload ++ LF ++ LF ++ "Long-term memory:" ++ LF ++ memory payload.

(** The callback of [payload.messages.map]. *)
Definition toContent (payload : RequestPayload) (message : Message)
    (index : Z) : Content :=
  let parts0 := [Text (content message)] in
  let isLastUser :=
    (index =? Z.of_nat (length (messages payload)) - 1)
    && (role message =? "user")%string in
  let parts1 :=
    if isLastUser && truthy_opt (imageDataUrl payload) then
      let data := chain (imageDataUrl payload)
                        (fun u => nth_error (split "," u) 1%nat) in
      if truthy_opt data
      then (parts0 ++ [InlineData "image/png" (nullish data "")])%list
      else parts0
    else parts0 in
  {| g_role := if (role message =? "assistant")%string then "model" else "user";
     parts := parts1 |}.

Definition buildContents (payload : RequestPayload) : list Content :=
  mapi (toContent payload) (messages payload).

Definition endpoint : string :=
  "https://generativelanguage.googleapis.com/v1beta/models/gemini-2.5-flash-lite:generateContent?key=".

Definition buildUpstream (payload : RequestPayload) (env : Env)
  : GeminiRequest :=
  {| url := endpoint ++ nullish (GEMINI_API_KEY env) "";
     upstream_method := "POST";
     upstream_headers := [("Content-Type", "application/json")];
     systemInstruction := [Text (systemInstructionText payload)];
     contents := buildContents payload;
     generationConfig :=
       {| temperature := 4 # 10; topP := 9 # 10; maxOutputTokens := 800 |} |}.

(** [data.candidates?.[0]?.content?.parts?.map(part => part.text ?? "").join("") ?? ""] *)
Definition extractText (data : GeminiData) : string :=
  nullish
    (option_map
       (fun ps => join "" (map (fun part => nullish (part_text part) "") ps))
       (chain (chain (chain (candidates data) (fun cs => nth_error cs 0%nat))
                     candidate_content)
              content_parts))
    "".

(** The statuses with which a response cannot have a body. *)
Definition nullBodyStatus (status : Z) : bool :=
  (status =? 101) || (status =? 103) || (status =? 204) || (status =? 205)
  || (status =? 304).

(** Whether [new Response(body, { status })] returns: it throws a
    RangeError for a status outside 200-599 and a TypeError for a body given
    with a null-body status. *)
Definition constructible (status : Z) (body : Body) : bool :=
  (200 <=? status) && (status <=? 599)
  && match body with
     | NullBody => true
     | _ => negb (nullBodyStatus status)
     end.

(** The handler.  [upstream] is the third-party endpoint, answering
    [None] when the outbound [fetch] rejects; the first component of the
    result lists the calls made to it, in order.  A response built
    without a status has status 200.  The responses with the fixed statuses
    204, 405, 500 and 200 can always be built; the one that relays the
    upstream status is built when [constructible] allows it, and the
    handler throws otherwise. *)
Definition fetch (request : Request) (env : Env)
    (upstream : GeminiRequest -> option GeminiResponse)
  : list GeminiRequest * Outcome :=
  if (method request =? "OPTIONS")%string then
    ([], Returned {| status := 204;
                     headers := corsHeaders request;
                     body := NullBody |})
  else if negb (method request =? "POST")%string then
    ([], Returned {| status := 405;
                     headers := [];
                     body := TextBody "Method not allowed" |})
  else
    match json request with
    | None => ([], Thrown)
    | Some payload =>
        if negb (truthy_opt (GEMINI_API_KEY env)) then
          ([], Returned {| status := 500;
                           headers := [];
                           body := TextBody "Missing GEMINI_API_KEY" |})
        else
          let call := buildUpstream payload env in
          match upstream call with
          | None => ([call], Thrown)
          | Some geminiResponse =>
              if negb (ok geminiResponse) then
                if constructible (upstream_status geminiResponse)
                                 (TextBody (upstream_text geminiResponse))
                then
                  ([call],
                   Returned {| status := upstream_status geminiResponse;
                               headers := [];
                               body := TextBody (upstream_text geminiResponse) |})
                else ([call], Thrown)
              else
                match upstream_json geminiResponse with
                | None => ([call], Thrown)
                | Some data =>
                    let text := extractText data in
                    ([call],
                     Returned {| status := 200;
                                 headers := ("Content-Type", "application/json")
                                            :: corsHeaders request;
                                 body := JsonTextBody text |})
                end
          end
    end.

(** Header lookup by name. *)
Fixpoint header (name : string) (hs : list (string * string)) : option string :=
  match hs with
  | [] => None
  | (k, v) :: hs' => if (k =? name)%string then Some v else header name hs'
  end.

Definition present {A : Type} (o : option A) : bool :=
  match o with Some _ => true | None => false end.

(** The three CORS headers are all on the response. *)
Definition hasCors (r : Response) : bool :=
  present (header "Access-Control-Allow-Origin" (headers r))
  && present (header "Access-Control-Allow-Methods" (headers r))
  && present (header "Access-Control-Allow-Headers" (headers r)).

(** The inline image parts of an upstream content entry. *)
Definition imageParts (c : Content) : list Part :=
  filter (fun p => match p with InlineData _ _ => true | Text _ => false end)
         (parts c).

(** The reading of the data-URL in the specification's words: what
    follows the first comma, when there is a comma. *)
Fixpoint spec_afterFirstComma (u : string) : option string :=
  match u with
  | EmptyString => None
  | String c u' => if Ascii.eqb c "," then Some u' else spec_afterFirstComma u'
  end.

(** The request body of the specification's examples, with or without
    an image. *)
Definition example_payload (image : option string) : RequestPayload :=
  {| system := "S"; memory := "M"; imageDataUrl := image;
     messages := [{| role := "user"; content := "hi" |}] |}.

(** A conversation of three turns, a request carrying it, a configured
    environment and an upstream that answers every call with two text parts
    around a part without text. *)
Definition example_conversation : RequestPayload :=
  {| system := "S"; memory := "M"; imageDataUrl := None;
     messages := [{| role := "user"; content := "hi" |};
                  {| role := "assistant"; content := "hello" |};
                  {| role := "user"; content := "why?" |}] |}.

Definition example_request : Request :=
  {| method := "POST"; Origin := Some "https://talkorithm.example";
     json := Some example_conversation |}.

Definition example_env : Env := {| GEMINI_API_KEY := Some "k" |}.

Definition example_answer : GeminiResponse :=
  {| upstream_status := 200;
     upstream_text := "";
     upstream_json :=
       Some {| candidates :=
                 Some [{| candidate_content :=
                            Some {| content_parts :=
                                      Some [{| part_text := Some "Hello" |};
                                            {| part_text := None |};
                                            {| part_text := Some ", world" |}] |} |}] |} |}.

Definition example_upstream (call : GeminiRequest) : option GeminiResponse :=
  Some example_answer.

End Relay.

(** ** The persistence client (lib/db.ts) over the hosted document store *)

Module Db.

(** [Message] of App.tsx without and with the identifier the store
    assigns. *)
Record MessageInput := {
  role : string;
  content : string;
  createdAt : Z
}.

Record Message := {
  message_id : string;
  message_role : string;
  message_content : string;
  message_createdAt : Z
}.

Record MemoryInput := {
  title : string;
  detail : string;
  memory_createdAt : Z
}.

(** [MemoryInput & { id: string }], the [MemoryItem] of App.tsx. *)
Record MemoryItem := {
  item_id : string;
  item_title : string;
  item_detail : string;
  item_createdAt : Z
}.

(** A stored document: the identifier given by the store and the data. *)
Record Doc (A : Type) := { doc_id : string; doc_data : A }.
Arguments doc_id {A} _.
Arguments doc_data {A} _.

(** The two collections, by path: users/uid/threads/threadId/messages and
    users/uid/memories.  Documents are kept in the order of their
    creation. *)
Record Store := {
  messagesAt : string -> string -> list (Doc MessageInput);
  memoriesAt : string -> list (Doc MemoryInput)
}.

(** The store is a collaborator outside the program; the three query
    operators the program uses are modelled by what they are documented to
    do: [orderBy] sorts on the field, documents with equal fields by
    identifier in the same direction, and [limit] keeps the first [n]. *)
Inductive Direction := asc | desc.

Section Query.
Context {A : Type} (field : A -> Z).

Definition precedes (dir : Direction) (a b : Doc A) : bool :=
  match dir with
  | asc =>
      (field (doc_data a) <? field (doc_data b))
      || ((field (doc_data a) =? field (doc_data b))
          && String.leb (doc_id a) (doc_id b))
  | desc =>
      (field (doc_data b) <? field (doc_data a))
      || ((field (doc_data a) =? field (doc_data b))
          && String.leb (doc_id b) (doc_id a))
  end.

Fixpoint insert (dir : Direction) (d : Doc A) (l : list (Doc A))
  : list (Doc A) :=
  match l with
  | [] => [d]
  | h :: t => if precedes dir d h then d :: l else h :: insert dir d t
  end.

Definition orderBy (dir : Direction) (l : list (Doc A)) : list (Doc A) :=
  fold_right (insert dir) [] l.

Definition limit (n : nat) (l : list (Doc A)) : list (Doc A) := firstn n l.

(** [a] is at least as recent as [b]. *)
Definition newerFirst (a b : Doc A) : Prop :=
  field (doc_data b) <= field (doc_data a).
End Query.

(** [addDoc(messagesRef, message)]; [newId] is the identifier the store
    assigns to the document. *)
Definition addMessage (newId uid threadId : string) (message : MessageInput)
    (db : Store) : Store :=
  {| messagesAt := fun u t =>
       if (u =? uid)%string && (t =? threadId)%string
       then (messagesAt db u t ++ [{| doc_id := newId; doc_data := message |}])%list
       else messagesAt db u t;
     memoriesAt := memoriesAt db |}.

Definition addMemory (newId uid : string) (memory : MemoryInput)
    (db : Store) : Store :=
  {| messagesAt := messagesAt db;
     memoriesAt := fun u =>
       if (u =? uid)%string
       then (memoriesAt db u ++ [{| doc_id := newId; doc_data := memory |}])%list
       else memoriesAt db u |}.

(** The callbacks of [snapshot.docs.map]: the identifier of the document
    and the fields of its data. *)
Definition messageOf (doc : Doc MessageInput) : Message :=
  {| message_id := doc_id doc;
     message_role := role (doc_data doc);
     message_content := content (doc_data doc);
     message_createdAt := createdAt (doc_data doc) |}.

Definition memoryItemOf (doc : Doc MemoryInput) : MemoryItem :=
  {| item_id := doc_id doc;
     item_title := title (doc_data doc);
     item_detail := detail (doc_data doc);
     item_createdAt := memory_createdAt (doc_data doc) |}.

(** What [listenMessages] hands to [onUpdate] for a snapshot of the store. *)
Definition listenMessages (uid threadId : string) (db : Store) : list Message :=
  map messageOf (limit 100 (orderBy createdAt asc (messagesAt db uid threadId))).

(** What [listenMemories] hands to [onUpdate] for a snapshot of the store. *)
Definition listenMemories (uid : string) (db : Store) : list MemoryItem :=
  map memoryItemOf (limit 24 (orderBy memory_createdAt desc (memoriesAt db uid))).

(** [a] is at least as old as [b]. *)
Definition olderFirst {A : Type} (field : A -> Z) (a b : Doc A) : Prop :=
  field (doc_data a) <= field (doc_data b).

End Db.

(** ** The relay client (lib/gemini.ts) *)

Module Gemini.
Import JS.

Record MentorChatInput := {
  messages : list Db.Message;
  system : string;
  memory : string;
  imageDataUrl : option string
}.

(** What comes back from the relay: the outbound [fetch] rejects, or it
    resolves to a response with a status and a body, of which [json()] gives
    the [text], [None] when the body is not JSON and the promise rejects. *)
Inductive ProxyReply :=
| NetworkError
| HttpReply (status : Z) (text : option string).

Definition replyOk (status : Z) : bool := (200 <=? status) && (status <=? 299).

(** [sendMentorChat]: the POSTs made, and the text returned, [None] when
    the function throws. *)
Definition sendMentorChat (GEMINI_PROXY_URL : option string)
    (proxy : string -> Relay.RequestPayload -> ProxyReply)
    (input : MentorChatInput)
  : list (string * Relay.RequestPayload) * option string :=
  if negb (truthy_opt GEMINI_PROXY_URL) then ([], None)
  else
    let target := nullish GEMINI_PROXY_URL "" in
    let payload :=
      {| Relay.system := system input;
         Relay.memory := memory input;
         Relay.imageDataUrl := imageDataUrl input;
         Relay.messages :=
           map (fun message =>
                  {| Relay.role := Db.message_role message;
                     Relay.content := Db.message_content message |})
               (messages input) |} in
    match proxy target payload with
    | NetworkError => ([(target, payload)], None)
    | HttpReply status text =>
        if negb (replyOk status) then ([(target, payload)], None)
        else ([(target, payload)], text)
    end.

End Gemini.

(** ** The drawing surface (components/Whiteboard.tsx) *)

Module Whiteboard.

Inductive Tool := pen | erase | line.

Definition Tool_eqb (a b : Tool) : bool :=
  match a, b with
  | pen, pen | erase, erase | line, line => true
  | _, _ => false
  end.

Record Point := { x : Q; y : Q }.
Record Size := { width : Z; height : Z }.

Definition COLORS : list string :=
  ["#0b1420"; "#2563ff"; "#16a34a"; "#f97316"; "#dc2626"; "#8b5cf6"].

(** One [beginPath(); moveTo(from); lineTo(to); stroke()] with the context
    as [configureContext] left it. *)
Record Stroke := {
  from : Point;
  to : Point;
  lineWidth : Z;
  globalCompositeOperation : string;
  strokeStyle : string
}.

(** The calls that change what is on the canvas. *)
Inductive CanvasOp :=
| ClearRect
| Stroked (s : Stroke)
| Resized.

(** The refs and the state of the component.  [canvas] tells whether
    [canvasRef.current] is an element and [context2d] whether
    [getContext("2d")] gives a context; [bitmap] is what is on the canvas,
    the strokes since it was last wiped. *)
Record State := {
  canvas : bool;
  context2d : bool;
  drawing : bool;
  lastPoint : option Point;
  lineStart : option Point;
  dirty : bool;
  tool : Tool;
  color : string;
  size : Z;
  canvasSize : Size;
  bitmap : list Stroke
}.

(** The component as it is mounted. *)
Definition initial : State :=
  {| canvas := true; context2d := true; drawing := false;
     lastPoint := None; lineStart := None; dirty := false;
     tool := pen; color := nth 0 COLORS ""; size := 3;
     canvasSize := {| width := 520; height := 260 |};
     bitmap := [] |}.

Definition setDirty (b : bool) (s : State) : State :=
  {| canvas := canvas s; context2d := context2d s; drawing := drawing s;
     lastPoint := lastPoint s; lineStart := lineStart s; dirty := b;
     tool := tool s; color := color s; size := size s;
     canvasSize := canvasSize s; bitmap := bitmap s |}.

Definition setBitmap (b : list Stroke) (s : State) : State :=
  {| canvas := canvas s; context2d := context2d s; drawing := drawing s;
     lastPoint := lastPoint s; lineStart := lineStart s; dirty := dirty s;
     tool := tool s; color := color s; size := size s;
     canvasSize := canvasSize s; bitmap := b |}.

Definition setRefs (d : bool) (last start : option Point) (s : State) : State :=
  {| canvas := canvas s; context2d := context2d s; drawing := d;
     lastPoint := last; lineStart := start; dirty := dirty s;
     tool := tool s; color := color s; size := size s;
     canvasSize := canvasSize s; bitmap := bitmap s |}.

Definition setTool (t : Tool) (s : State) : State :=
  {| canvas := canvas s; context2d := context2d s; drawing := drawing s;
     lastPoint := lastPoint s; lineStart := lineStart s; dirty := dirty s;
     tool := t; color := color s; size := size s;
     canvasSize := canvasSize s; bitmap := bitmap s |}.

Definition setColor (c : string) (s : State) : State :=
  {| canvas := canvas s; context2d := context2d s; drawing := drawing s;
     lastPoint := lastPoint s; lineStart := lineStart s; dirty := dirty s;
     tool := tool s; color := c; size := size s;
     canvasSize := canvasSize s; bitmap := bitmap s |}.

Definition setSize (n : Z) (s : State) : State :=
  {| canvas := canvas s; context2d := context2d s; drawing := drawing s;
     lastPoint := lastPoint s; lineStart := lineStart s; dirty := dirty s;
     tool := tool s; color := color s; size := n;
     canvasSize := canvasSize s; bitmap := bitmap s |}.

Definition setCanvasSize (sz : Size) (s : State) : State :=
  {| canvas := canvas s; context2d := context2d s; drawing := drawing s;
     lastPoint := lastPoint s; lineStart := lineStart s; dirty := dirty s;
     tool := tool s; color := color s; size := size s;
     canvasSize := sz; bitmap := bitmap s |}.

(** [clearCanvas].  The rectangle given to [clearRect] is read through the
    transform of the context, which scales by the device pixel ratio; it
    covers the whole canvas for a ratio of 1 or more, which is what the
    model takes: the canvas is blank afterwards. *)
Definition clearCanvas (s : State) : State * list CanvasOp :=
  if negb (canvas s) then (s, [])
  else if negb (context2d s) then (s, [])
  else (setDirty false (setBitmap [] s), [ClearRect]).

(** [getDataUrl]; [toDataURL] is the PNG encoding of the canvas. *)
Definition getDataUrl (toDataURL : list Stroke -> string) (s : State)
  : option string :=
  if negb (canvas s) || negb (dirty s) then None
  else Some (toDataURL (bitmap s)).

Definition hasDrawing (s : State) : bool := dirty s.

(** [getPoint]: [p] is the position of the pointer relative to the
    canvas. *)
Definition getPoint (s : State) (p : Point) : option Point :=
  if negb (canvas s) then None else Some p.

(** The stroke that [configureContext] and the path calls produce. *)
Definition configuredStroke (s : State) (a b : Point) : Stroke :=
  {| from := a; to := b; lineWidth := size s;
     globalCompositeOperation :=
       if Tool_eqb (tool s) erase then "destination-out" else "source-over";
     strokeStyle :=
       if Tool_eqb (tool s) erase then "rgba(0,0,0,1)" else color s |}.

Definition draw (k : Stroke) (s : State) : State :=
  setBitmap (bitmap s ++ [k])%list s.

Definition handlePointerDown (p : Point) (s : State) : State * list CanvasOp :=
  match getPoint s p with
  | None => (s, [])
  | Some point => (setRefs true (Some point) (Some point) s, [])
  end.

Definition handlePointerMove (p : Point) (s : State) : State * list CanvasOp :=
  if negb (drawing s) then (s, [])
  else if negb (canvas s) then (s, [])
  else if negb (context2d s) then (s, [])
  else
    match getPoint s p, lastPoint s with
    | Some point, Some last =>
        let '(s1, ops) :=
          if negb (Tool_eqb (tool s) line)
          then (draw (configuredStroke s last point) s,
                [Stroked (configuredStroke s last point)])
          else (s, []) in
        let s2 := setRefs (drawing s1) (Some point) (lineStart s1) s1 in
        (if negb (dirty s2) then setDirty true s2 else s2, ops)
    | _, _ => (s, [])
    end.

Definition handlePointerUp (p : Point) (s : State) : State * list CanvasOp :=
  if negb (drawing s) then (s, [])
  else
    let s0 := setRefs false (lastPoint s) (lineStart s) s in
    if Tool_eqb (tool s0) line then
      if negb (canvas s0) then (s0, [])
      else if negb (context2d s0) then (s0, [])
      else
        let '(s1, ops) :=
          match lineStart s0, getPoint s0 p with
          | Some start, Some endp =>
              let s' := draw (configuredStroke s0 start endp) s0 in
              (if negb (dirty s') then setDirty true s' else s',
               [Stroked (configuredStroke s0 start endp)])
          | _, _ => (s0, [])
          end in
        (setRefs (drawing s1) None None s1, ops)
    else (setRefs (drawing s0) None None s0, []).

(** The resize observer and the effect that follows it: assigning the
    dimensions of a canvas wipes it. *)
Definition handleResize (w h : Q) (s : State) : State * list CanvasOp :=
  let s1 := setCanvasSize {| width := Z.max 320 (Qfloor w);
                             height := Z.max 220 (Qfloor h) |} s in
  if negb (canvas s1) then (s1, []) else (setBitmap [] s1, [Resized]).

(** What can happen to the component. *)
Inductive Event :=
| PointerDown (p : Point)
| PointerMove (p : Point)
| PointerUp (p : Point)
| PointerLeave (p : Point)
| Clear
| PickTool (t : Tool)
| PickColor (c : string)
| PickSize (n : Z)
| Resize (w h : Q).

Definition step (s : State) (e : Event) : State * list CanvasOp :=
  match e with
  | PointerDown p => handlePointerDown p s
  | PointerMove p => handlePointerMove p s
  | PointerUp p => handlePointerUp p s
  | PointerLeave p => handlePointerUp p s
  | Clear => clearCanvas s
  | PickTool t => (setTool t s, [])
  | PickColor c => (setTool pen (setColor c s), [])
  | PickSize n => (setSize n s, [])
  | Resize w h => handleResize w h s
  end.

(** The state after a sequence of events and the canvas calls made. *)
Fixpoint run (s : State) (es : list Event) : State * list CanvasOp :=
  match es with
  | [] => (s, [])
  | e :: es' =>
      let '(s1, ops1) := step s e in
      let '(s2, ops2) := run s1 es' in
      (s2, (ops1 ++ ops2)%list)
  end.

(** Whether a stroke follows the last [clearRect] of a sequence of canvas
    calls, [b] telling whether one did before the sequence. *)
Fixpoint drawnSinceClear (b : bool) (ops : list CanvasOp) : bool :=
  match ops with
  | [] => b
  | ClearRect :: ops' => drawnSinceClear false ops'
  | Stroked _ :: ops' => drawnSinceClear true ops'
  | Resized :: ops' => drawnSinceClear b ops'
  end.

(** The strokes of a path through the points [ps] starting at [a], each
    made by [k] from one point to the next. *)
Fixpoint polyline (k : Point -> Point -> Stroke) (a : Point) (ps : list Point)
  : list Stroke :=
  match ps with
  | [] => []
  | p :: ps' => k a p :: polyline k p ps'
  end.

End Whiteboard.

(** ** The application shell (App.tsx) *)

Module App.
Import JS.

Definition THREAD_ID : string := "main".

(** The state of the component; [user] holds the [uid] of the signed-in
    account and [board] is [boardRef.current]. *)
Record State := {
  user : option string;
  messages : list Db.Message;
  memories : list Db.MemoryItem;
  input : string;
  loading : bool;
  listening : bool;
  speaking : bool;
  autoSpeak : bool;
  autoSendVoice : bool;
  userGesture : bool;
  error : option string;
  board : option Whiteboard.State
}.

Definition setError (e : option string) (s : State) : State :=
  {| user := user s; messages := messages s; memories := memories s;
     input := input s; loading := loading s; listening := listening s;
     speaking := speaking s; autoSpeak := autoSpeak s;
     autoSendVoice := autoSendVoice s; userGesture := userGesture s;
     error := e; board := board s |}.

Definition setInput (i : string) (s : State) : State :=
  {| user := user s; messages := messages s; memories := memories s;
     input := i; loading := loading s; listening := listening s;
     speaking := speaking s; autoSpeak := autoSpeak s;
     autoSendVoice := autoSendVoice s; userGesture := userGesture s;
     error := error s; board := board s |}.

Definition setLoading (b : bool) (s : State) : State :=
  {| user := user s; messages := messages s; memories := memories s;
     input := input s; loading := b; listening := listening s;
     speaking := speaking s; autoSpeak := autoSpeak s;
     autoSendVoice := autoSendVoice s; userGesture := userGesture s;
     error := error s; board := board s |}.

Definition setSpeaking (b : bool) (s : State) : State :=
  {| user := user s; messages := messages s; memories := memories s;
     input := input s; loading := loading s; listening := listening s;
     speaking := b; autoSpeak := autoSpeak s;
     autoSendVoice := autoSendVoice s; userGesture := userGesture s;
     error := error s; board := board s |}.

Definition setLists (ms : list Db.Message) (mems : list Db.MemoryItem)
    (s : State) : State :=
  {| user := user s; messages := ms; memories := mems;
     input := input s; loading := loading s; listening := listening s;
     speaking := speaking s; autoSpeak := autoSpeak s;
     autoSendVoice := autoSendVoice s; userGesture := userGesture s;
     error := error s; board := board s |}.

(** The effect on [user]: the two subscriptions, whose callbacks store
    what the listeners deliver for the store as it is. *)
Definition subscribed (db : Db.Store) (s : State) : State :=
  match user s with
  | None => setLists [] [] s
  | Some uid =>
      setLists (Db.listenMessages uid THREAD_ID db) (Db.listenMemories uid db) s
  end.

Definition memoryLine (item : Db.MemoryItem) : string :=
  "- " ++ Db.item_title item ++ ": " ++ Db.item_detail item.

Definition memorySummary (memories : list Db.MemoryItem) : string :=
  if (length memories =? 0)%nat then "No saved memory yet."
  else join LF (map memoryLine (firstn 8 memories)).

(** What a send depends on outside the component: the clock at the two
    reads of [Date.now()], the identifiers the store assigns to the two
    documents, the configured relay endpoint and the relay behind it, the
    text of [getMentorSystemPrompt()] (lib/prompt), the PNG encoding of
    the canvas, whether the browser has speech synthesis, whether a list of
    voices ever arrives ([getVoices()] resolves) and whether the end of the
    utterance is ever notified ([onend] is called). *)
Record World := {
  now : Z;
  later : Z;
  userDocId : string;
  assistantDocId : string;
  GEMINI_PROXY_URL : option string;
  proxy : string -> Relay.RequestPayload -> Gemini.ProxyReply;
  mentorSystemPrompt : string;
  toDataURL : list Whiteboard.Stroke -> string;
  speechSynthesis : bool;
  voicesReady : bool;
  utteranceEnds : bool
}.

(** What a send does outside the component, in order. *)
Inductive Effect :=
| Persist (uid threadId : string) (m : Db.MessageInput)
| Post (target : string) (payload : Relay.RequestPayload)
| StopSpeaking
| Speak (text : string).

Definition posts (calls : list (string * Relay.RequestPayload)) : list Effect :=
  map (fun c => Post (fst c) (snd c)) calls.

(** The request handed to [sendMentorChat]. *)
Definition outgoing (w : World) (userMessage : string) (s : State)
  : Gemini.MentorChatInput :=
  let drawing := chain (board s) (Whiteboard.getDataUrl (toDataURL w)) in
  {| Gemini.messages :=
       (messages s ++ [{| Db.message_id := "tmp";
                          Db.message_role := "user";
                          Db.message_content := userMessage;
                          Db.message_createdAt := now w |}])%list;
     Gemini.system := mentorSystemPrompt w;
     Gemini.memory := memorySummary (memories s);
     Gemini.imageDataUrl := drawing |}.

Section Shell.

(** [trim] is [String.prototype.trim], which the shell calls on the text to
    send.  What a send writes and posts is stated for whatever [trim]
    strips; [JS.trim] is [trim] on the strings of the model. *)
Variable trim : string -> string.

(** [handleSendText(text, { fromVoice })]: the state and the store
    afterwards, and the effects in the order they happen.  The writes to the
    store are taken to succeed.  [await speakText(...)] returns at once
    without speech synthesis, and otherwise settles only after a list of
    voices has arrived and the end of the utterance has been notified; when
    it never settles the handler stays there, so the result is the state at
    that point, with the loading flag still on. *)
Definition handleSendText (w : World) (text : string) (fromVoice : bool)
    (s : State) (db : Db.Store) : State * Db.Store * list Effect :=
  match user s with
  | None => (s, db, [])
  | Some uid =>
      if negb (truthy (trim text)) || loading s then (s, db, [])
      else
        let s1 := setError None s in
        let userMessage := trim text in
        let userTurn := {| Db.role := "user"; Db.content := userMessage;
                           Db.createdAt := now w |} in
        let db1 := Db.addMessage (userDocId w) uid THREAD_ID userTurn db in
        let s2 := if negb fromVoice then setInput "" s1 else s1 in
        let s3 := setLoading true s2 in
        match Gemini.sendMentorChat (GEMINI_PROXY_URL w) (proxy w)
                (outgoing w userMessage s3) with
        | (calls, Some response) =>
            let reply := {| Db.role := "assistant"; Db.content := response;
                            Db.createdAt := later w |} in
            let db2 := Db.addMessage (assistantDocId w) uid THREAD_ID reply db1 in
            let written := (Persist uid THREAD_ID userTurn :: posts calls
                            ++ [Persist uid THREAD_ID reply])%list in
            if autoSpeak s3 && userGesture s3 then
              let stop := if speaking s3 && speechSynthesis w
                          then [StopSpeaking] else [] in
              if negb (speechSynthesis w) then
                (setLoading false (setSpeaking true s3), db2,
                 (written ++ stop)%list)
              else if negb (voicesReady w) then
                (setSpeaking true s3, db2, (written ++ stop)%list)
              else if negb (utteranceEnds w) then
                (setSpeaking true s3, db2,
                 (written ++ stop ++ [Speak response])%list)
              else
                (setLoading false (setSpeaking false s3), db2,
                 (written ++ stop ++ [Speak response])%list)
            else (setLoading false s3, db2, written)
        | (calls, None) =>
            (setLoading false
               (setError (Some "Unable to reach the mentor right now.") s3),
             db1,
             (Persist uid THREAD_ID userTurn :: posts calls)%list)
        end
  end.

End Shell.

(** The turns of one role among the effects of a send. *)
Definition persisted (r : string) (trace : list Effect) : list Db.MessageInput :=
  flat_map (fun e => match e with
                     | Persist _ _ m => if (Db.role m =? r)%string then [m] else []
                     | _ => []
                     end) trace.

(** The note that [handleSaveMemory] builds from a message; [clock] is
    [Date.now()]. *)
Definition memoryOf (clock : Z) (message : Db.Message) : Db.MemoryInput :=
  let title :=
    JS.trim (replace_spaces (slice0 64 (Db.message_content message))) in
  let detail :=
    JS.trim (replace_spaces (slice0 220 (Db.message_content message))) in
  {| Db.title := if truthy title then title else "Saved insight";
     Db.detail := detail;
     Db.memory_createdAt := clock |}.

(** [handleSaveMemory]; [newId] is the identifier the store assigns. *)
Definition handleSaveMemory (newId : string) (clock : Z) (message : Db.Message)
    (s : State) (db : Db.Store) : Db.Store :=
  match user s with
  | None => db
  | Some uid => Db.addMemory newId uid (memoryOf clock message) db
  end.

End App.

(** ** The speech bridge (lib/speech.ts) *)

Module Speech.
Import JS.

Record Voice := { lang : string; voiceName : string }.

Record Utterance := {
  utterance_text : string;
  voice : option Voice;
  rate : Z;
  pitch : Z
}.

(** The calls made on [window.speechSynthesis]. *)
Inductive SynthCall :=
| Cancel
| SpeakUtterance (u : Utterance).

(** The handler of "voiceschanged" inside [getVoices]: [changes] lists what
    [synth.getVoices()] returns at each later notification; the promise
    resolves at the first list that is not empty. *)
Fixpoint awaitVoices (changes : list (list Voice)) : option (list Voice) :=
  match changes with
  | [] => None
  | nextVoices :: changes' =>
      if (length nextVoices =? 0)%nat then awaitVoices changes'
      else Some nextVoices
  end.

(** [getVoices]: [voices] is what [synth.getVoices()] returns at the call;
    [None] when the promise never resolves. *)
Definition getVoices (voices : list Voice) (changes : list (list Voice))
  : option (list Voice) :=
  if negb (length voices =? 0)%nat then Some voices else awaitVoices changes.

(** [speakText]: the calls made on the synthesizer; [supported] tells
    whether "speechSynthesis" is in [window]. *)
Definition speakText (supported : bool) (voices : list Voice)
    (changes : list (list Voice)) (text : string) : list SynthCall :=
  if negb supported then []
  else
    match getVoices voices changes with
    | None => []
    | Some voices' =>
        let preferred := find (fun v => startsWith "en" (lang v)) voices' in
        [Cancel;
         SpeakUtterance {| utterance_text := text; voice := preferred;
                           rate := 1; pitch := 1 |}]
    end.

(** [stopSpeaking] *)
Definition stopSpeaking (supported : bool) : list SynthCall :=
  if supported then [Cancel] else [].

End Speech.

(** ** Concrete situations used to exercise the statements below *)

Module Examples.

(** An account with three saved notes, stored oldest first. *)
Definition store : Db.Store :=
  {| Db.messagesAt := fun _ _ => [];
     Db.memoriesAt := fun uid =>
       if (uid =? "u1")%string then
         [ {| Db.doc_id := "a";
              Db.doc_data := {| Db.title := "Heaps"; Db.detail := "sift down";
                                Db.memory_createdAt := 10 |} |};
           {| Db.doc_id := "b";
              Db.doc_data := {| Db.title := "Tries"; Db.detail := "prefix walk";
                                Db.memory_createdAt := 30 |} |};
           {| Db.doc_id := "c";
              Db.doc_data := {| Db.title := "DP"; Db.detail := "state first";
                                Db.memory_createdAt := 20 |} |} ]
       else [] |}.

(** The shell of a signed-in account, idle, with the whiteboard mounted. *)
Definition shell : App.State :=
  {| App.user := Some "u1"; App.messages := []; App.memories := [];
     App.input := "hello"; App.loading := false; App.listening := false;
     App.speaking := false; App.autoSpeak := true; App.autoSendVoice := true;
     App.userGesture := true; App.error := None;
     App.board := Some Whiteboard.initial |}.

(** A world whose relay is down, and one whose relay answers. *)
Definition world (reply : Gemini.ProxyReply) : App.World :=
  {| App.now := 1000; App.later := 2000;
     App.userDocId := "m1"; App.assistantDocId := "m2";
     App.GEMINI_PROXY_URL := Some "https://relay.example";
     App.proxy := fun _ _ => reply;
     App.mentorSystemPrompt := "You are a mentor.";
     App.toDataURL := fun _ => "data:image/png;base64,AAA=";
     App.speechSynthesis := true;
     App.voicesReady := true;
     App.utteranceEnds := true |}.

Definition p0 : Whiteboard.Point := {| Whiteboard.x := 10 # 1; Whiteboard.y := 10 # 1 |}.
Definition p1 : Whiteboard.Point := {| Whiteboard.x := 40 # 1; Whiteboard.y := 25 # 1 |}.

(** A drag with the line tool that has not been released yet. *)
Definition lineDrag : list Whiteboard.Event :=
  [Whiteboard.PickTool Whiteboard.line;
   Whiteboard.PointerDown p0;
   Whiteboard.PointerMove p1].

(** A pen stroke, then a clear, then a finished line. *)
Definition sketch : list Whiteboard.Event :=
  [Whiteboard.PointerDown p0; Whiteboard.PointerMove p1; Whiteboard.PointerUp p1;
   Whiteboard.Clear;
   Whiteboard.PickTool Whiteboard.line;
   Whiteboard.PointerDown p0; Whiteboard.PointerUp p1].


(** An assistant message whose text has line breaks and runs of blanks. *)
Definition longAnswer : Db.Message :=
  {| Db.message_id := "m2"; Db.message_role := "assistant";
     Db.message_content :=
       String (ascii_of_nat 160)
         ("  Use a heap:
   push, then " ++ String (ascii_of_nat 160) "  pop.  ");
     Db.message_createdAt := 2000 |}.

Definition voices : list Speech.Voice :=
  [{| Speech.lang := "fr-FR"; Speech.voiceName := "Amelie" |};
   {| Speech.lang := "en-GB"; Speech.voiceName := "Daniel" |};
   {| Speech.lang := "en-US"; Speech.voiceName := "Samantha" |}].

(** A thread of [n] turns written at the times 0, 1, ... *)
Definition turns (n : nat) : list (Db.Doc Db.MessageInput) :=
  map (fun i => {| Db.doc_id := "t";
                   Db.doc_data := {| Db.role := "user"; Db.content := "again";
                                     Db.createdAt := Z.of_nat i |} |})
      (seq 0 n).

Definition threadOf (n : nat) : Db.Store :=
  {| Db.messagesAt := fun _ _ => turns n; Db.memoriesAt := fun _ => [] |}.

Definition lateTurn : Db.MessageInput :=
  {| Db.role := "user"; Db.content := "one more"; Db.createdAt := 5000 |}.

Definition lateNote : Db.MemoryInput :=
  {| Db.title := "Graphs"; Db.detail := "BFS layers"; Db.memory_createdAt := 40 |}.

(** A text of white space only: a space, a tab, a line feed and a no-break
    space. *)
Definition blanks : string :=
  String " " (String (ascii_of_nat 9) (String (ascii_of_nat 10)
    (String (ascii_of_nat 160) EmptyString))).

End Examples.

(** * Properties of the relay worker *)

Section RelayFacts.
Import JS Relay.

Lemma split_nonempty (sep : ascii) (s : string) : split sep s <> [].
Proof.
  destruct s as [|c s]; simpl; [discriminate|].
  destruct (Ascii.eqb c sep); [discriminate|].
  destruct (split sep s); discriminate.
Qed.

(** A string without the separator is the only field of its split. *)
Lemma split_without_sep (sep : ascii) (s : string) :
  (forall c, In c (list_ascii_of_string s) -> c <> sep) ->
  split sep s = [s].
Proof.
  induction s as [|c s IH]; intros Hno; simpl; [reflexivity|].
  destruct (Ascii.eqb c sep) eqn:E.
  - apply Ascii.eqb_eq in E. exfalso. apply (Hno c); [left; reflexivity|exact E].
  - rewrite IH; [reflexivity|].
    intros c' Hin. apply Hno. right. exact Hin.
Qed.

(** The second field of the split is the start, up to the next comma, of
    what follows the first comma. *)
Lemma split_second_field (u : string) :
  nth_error (split "," u) 1
  = option_map (fun rest => hd "" (split "," rest)) (spec_afterFirstComma u).
Proof.
  induction u as [|c u IH]; simpl; [reflexivity|].
  destruct (Ascii.eqb c ",") eqn:E; simpl.
  - destruct (split "," u) eqn:Es; [|reflexivity].
    exfalso. exact (split_nonempty _ _ Es).
  - destruct (split "," u) as [|f fs] eqn:Es.
    + exfalso. exact (split_nonempty _ _ Es).
    + simpl in *. exact IH.
Qed.

Lemma truthy_true (s : string) : truthy s = true <-> s <> "".
Proof.
  unfold truthy. rewrite negb_true_iff. apply String.eqb_neq.
Qed.

Lemma mapi_from_length {A B : Type} (f : A -> Z -> B) (l : list A) :
  forall k, length (mapi_from k f l) = length l.
Proof.
  induction l as [|a l IH]; intros k; simpl; [reflexivity|].
  rewrite IH. reflexivity.
Qed.

Lemma mapi_from_nth {A B : Type} (f : A -> Z -> B) (l : list A) :
  forall k i,
    nth_error (mapi_from k f l) i
    = option_map (fun a => f a (k + Z.of_nat i)) (nth_error l i).
Proof.
  induction l as [|a l IH]; intros k i; destruct i as [|i]; simpl; try reflexivity.
  - rewrite Z.add_0_r. reflexivity.
  - rewrite IH. destruct (nth_error l i); simpl; [|reflexivity].
    f_equal. f_equal. lia.
Qed.

Lemma mapi_from_Forall2 {A B : Type} (R : A -> B -> Prop) (f : A -> Z -> B) :
  (forall a i, R a (f a i)) ->
  forall l k, Forall2 R l (mapi_from k f l).
Proof.
  intros HR l. induction l as [|a l IH]; intros k; simpl; constructor; auto.
Qed.

(** The calls and the outcome of a POST that passes the two guards. *)
Lemma fetch_post (request : Request) (env : Env)
    (upstream : GeminiRequest -> option GeminiResponse) (payload : RequestPayload) :
  method request = "POST" ->
  json request = Some payload ->
  truthy_opt (GEMINI_API_KEY env) = true ->
  fetch request env upstream
  = ([buildUpstream payload env],
     match upstream (buildUpstream payload env) with
     | None => Thrown
     | Some geminiResponse =>
         if ok geminiResponse
         then match upstream_json geminiResponse with
              | Some data =>
                  Returned {| status := 200;
                              headers := ("Content-Type", "application/json")
                                         :: corsHeaders request;
                              body := JsonTextBody (extractText data) |}
              | None => Thrown
              end
         else if constructible (upstream_status geminiResponse)
                               (TextBody (upstream_text geminiResponse))
              then Returned {| status := upstream_status geminiResponse;
                               headers := [];
                               body := TextBody (upstream_text geminiResponse) |}
              else Thrown
     end).
Proof.
  intros Hm Hj Hk. unfold fetch. rewrite Hm, Hj, Hk.
  change ("POST" =? "OPTIONS")%string with false.
  change ("POST" =? "POST")%string with true. cbn [negb].
  destruct (upstream (buildUpstream payload env)) as [g|]; [|reflexivity].
  destruct (ok g); cbn [negb].
  - destruct (upstream_json g); reflexivity.
  - destruct (constructible (upstream_status g) (TextBody (upstream_text g)));
      reflexivity.
Qed.

Lemma join_empty_sep (l : list string) :
  join "" l = fold_right append "" l.
Proof.
  unfold join. induction l as [|a l IH]; simpl; [reflexivity|].
  destruct l as [|b l].
  - simpl. clear IH. induction a; simpl; congruence.
  - rewrite IH. reflexivity.
Qed.

End RelayFacts.

Section RelayClaims.
Import JS Relay.

Lemma toContent_parts (payload : RequestPayload) (message : Message) (index : Z) :
  parts (toContent payload message index)
  = if (index =? Z.of_nat (length (messages payload)) - 1)
       && (role message =? "user")%string
    then match imageDataUrl payload with
         | Some u =>
             match nth_error (split "," u) 1 with
             | Some data =>
                 if truthy data
                 then [Text (content message); InlineData "image/png" data]
                 else [Text (content message)]
             | None => [Text (content message)]
             end
         | None => [Text (content message)]
         end
    else [Text (content message)].
Proof.
  unfold toContent. cbn [parts].
  destruct ((index =? Z.of_nat (length (messages payload)) - 1)
            && (role message =? "user")%string); [|reflexivity].
  destruct (imageDataUrl payload) as [u|]; [|reflexivity].
  cbn [andb truthy_opt chain].
  destruct (truthy u) eqn:Eu.
  - destruct (nth_error (split "," u) 1) as [data|]; [|reflexivity].
    cbn [truthy_opt nullish]. destruct (truthy data); reflexivity.
  - unfold truthy in Eu. apply negb_false_iff, String.eqb_eq in Eu. subst u.
    reflexivity.
Qed.

(** C1, as the code has it: the entry of a message carries an inline
    image part exactly when the message is the last one, its role is
    "user", an [imageDataUrl] was supplied and the second comma-separated
    field of the data-URL is not empty; the part then has the media type
    "image/png" and that field as its data.  The field is the whole of what
    follows the first comma whenever no further comma occurs there. *)
Theorem relay_image_part_is_second_field :
  forall (payload : RequestPayload) (i : nat) (message : Message) (c : Content),
    nth_error (messages payload) i = Some message ->
    nth_error (buildContents payload) i = Some c ->
    (forall mimeType data,
        In (InlineData mimeType data) (parts c) <->
        (S i = length (messages payload) /\ role message = "user" /\
         mimeType = "image/png" /\ data <> "" /\
         exists u, imageDataUrl payload = Some u /\
                   nth_error (split "," u) 1 = Some data))
    /\ (parts c = [Text (content message)] \/
        exists data, parts c = [Text (content message); InlineData "image/png" data])
    /\ (forall u rest,
           imageDataUrl payload = Some u ->
           spec_afterFirstComma u = Some rest ->
           (forall ch, In ch (list_ascii_of_string rest) -> ch <> ","%char) ->
           nth_error (split "," u) 1 = Some rest).
Proof.
  intros payload i message c Hm Hc.
  unfold buildContents, mapi in Hc.
  rewrite mapi_from_nth, Hm in Hc. simpl in Hc. injection Hc as <-.
  rewrite toContent_parts.
  assert (Hidx : (Z.of_nat i =? Z.of_nat (length (messages payload)) - 1) = true
                 <-> S i = length (messages payload)).
  { rewrite Z.eqb_eq. lia. }
  split; [|split].
  - intros mimeType data.
    destruct (Z.of_nat i =? Z.of_nat (length (messages payload)) - 1) eqn:Ei.
    2:{ cbn [andb]. split.
        - intros [Hin|[]]. discriminate.
        - intros [Hl _]. apply Hidx in Hl. discriminate. }
    destruct (String.eqb_spec (role message) "user") as [Hr|Hr].
    2:{ cbn [andb]. split.
        - intros [Hin|[]]. discriminate.
        - intros (_ & Hu & _). contradiction. }
    cbn [andb].
    destruct (imageDataUrl payload) as [u|].
    2:{ split.
        - intros [Hin|[]]. discriminate.
        - intros (_ & _ & _ & _ & u & Hu & _). discriminate. }
    destruct (nth_error (split "," u) 1) as [d|] eqn:Ed.
    2:{ split.
        - intros [Hin|[]]. discriminate.
        - intros (_ & _ & _ & _ & u' & Hu & Hn).
          injection Hu as <-. rewrite Ed in Hn. discriminate. }
    destruct (truthy d) eqn:Et.
    + apply truthy_true in Et. split.
      * intros [Hin|[Hin|[]]]; [discriminate|].
        injection Hin as <- <-.
        repeat split; auto; [apply Hidx; reflexivity|].
        exists u. split; [reflexivity|exact Ed].
      * intros (_ & _ & -> & _ & u' & Hu & Hn).
        injection Hu as <-. rewrite Ed in Hn. injection Hn as <-.
        right. left. reflexivity.
    + split.
      * intros [Hin|[]]. discriminate.
      * intros (_ & _ & _ & Hne & u' & Hu & Hn).
        injection Hu as <-. rewrite Ed in Hn. injection Hn as <-.
        apply truthy_true in Hne. congruence.
  - destruct ((Z.of_nat i =? Z.of_nat (length (messages payload)) - 1)
              && (role message =? "user")%string); [|left; reflexivity].
    destruct (imageDataUrl payload) as [u|]; [|left; reflexivity].
    destruct (nth_error (split "," u) 1) as [d|]; [|left; reflexivity].
    destruct (truthy d); [right; exists d; reflexivity|left; reflexivity].
  - intros u rest _ Hrest Hno.
    rewrite split_second_field, Hrest. simpl.
    rewrite (split_without_sep _ _ Hno). reflexivity.
Qed.

(** The specification's own example of an attached image. *)
Lemma relay_image_part_is_second_field_witness :
  nth_error (messages (example_payload (Some "data:image/png;base64,AAA="))) 0
  = Some {| role := "user"; content := "hi" |}
  /\ nth_error (buildContents (example_payload (Some "data:image/png;base64,AAA="))) 0
     = Some {| g_role := "user";
               parts := [Text "hi"; InlineData "image/png" "AAA="] |}
  /\ (forall mimeType data,
         In (InlineData mimeType data) [Text "hi"; InlineData "image/png" "AAA="]
         <-> (1%nat = length (messages (example_payload
                                          (Some "data:image/png;base64,AAA=")))
              /\ "user" = "user"
              /\ mimeType = "image/png" /\ data <> ""
              /\ exists u,
                   Some "data:image/png;base64,AAA=" = Some u
                   /\ nth_error (split "," u) 1 = Some data)).
Proof.
  split; [reflexivity|]. split; [reflexivity|].
  exact (proj1 (relay_image_part_is_second_field
                  (example_payload (Some "data:image/png;base64,AAA=")) 0
                  {| role := "user"; content := "hi" |}
                  {| g_role := "user";
                     parts := [Text "hi"; InlineData "image/png" "AAA="] |}
                  eq_refl eq_refl)).
Defined.

(** C1 fails as stated: with a second comma in the data-URL, the attached
    data is not what follows the first comma, and an empty second field
    attaches nothing although something follows the first comma. *)
Lemma relay_image_part_counterexample :
  (buildContents (example_payload (Some "data:image/png;base64,AAA=,BBB"))
   = [{| g_role := "user";
         parts := [Text "hi"; InlineData "image/png" "AAA="] |}]
   /\ spec_afterFirstComma "data:image/png;base64,AAA=,BBB" = Some "AAA=,BBB"
   /\ "AAA=" <> "AAA=,BBB")
  /\ (buildContents (example_payload (Some "data:,,AAA="))
      = [{| g_role := "user"; parts := [Text "hi"] |}]
      /\ spec_afterFirstComma "data:,,AAA=" = Some ",AAA="
      /\ ",AAA=" <> "").
Proof.
  repeat split; try reflexivity; discriminate.
Qed.

(** C2: for a POST that reaches the upstream call, the [contents] of the
    call has one entry per message of the body, in the same order and number;
    an entry has role "model" for an "assistant" message and "user" for a
    "user" message, and its first part is the text of the message. *)
Theorem relay_contents_follow_messages :
  forall (request : Request) (env : Env)
         (upstream : GeminiRequest -> option GeminiResponse)
         (payload : RequestPayload),
    method request = "POST" ->
    json request = Some payload ->
    truthy_opt (GEMINI_API_KEY env) = true ->
    exists call,
      fst (fetch request env upstream) = [call]
      /\ length (contents call) = length (messages payload)
      /\ Forall2 (fun message c =>
                    (role message = "assistant" -> g_role c = "model")
                    /\ (role message = "user" -> g_role c = "user")
                    /\ hd_error (parts c) = Some (Text (content message)))
                 (messages payload) (contents call).
Proof.
  intros request env upstream payload Hm Hj Hk.
  exists (buildUpstream payload env).
  rewrite (fetch_post _ _ upstream _ Hm Hj Hk). cbn [fst buildUpstream contents].
  split; [reflexivity|]. split.
  - unfold buildContents, mapi. apply mapi_from_length.
  - unfold buildContents, mapi. apply mapi_from_Forall2.
    intros message index. split; [|split].
    + intros Hr. unfold toContent. cbn [g_role]. rewrite Hr. reflexivity.
    + intros Hr. unfold toContent. cbn [g_role]. rewrite Hr. reflexivity.
    + rewrite toContent_parts.
      destruct ((index =? Z.of_nat (length (messages payload)) - 1)
                && (role message =? "user")%string); [|reflexivity].
      destruct (imageDataUrl payload) as [u|]; [|reflexivity].
      destruct (nth_error (split "," u) 1) as [d|]; [|reflexivity].
      destruct (truthy d); reflexivity.
Qed.

Lemma relay_contents_follow_messages_witness :
  exists call,
    fst (fetch example_request example_env example_upstream) = [call]
    /\ length (contents call) = length (messages example_conversation)
    /\ Forall2 (fun message c =>
                  (role message = "assistant" -> g_role c = "model")
                  /\ (role message = "user" -> g_role c = "user")
                  /\ hd_error (parts c) = Some (Text (content message)))
               (messages example_conversation) (contents call).
Proof.
  apply (relay_contents_follow_messages example_request example_env
           example_upstream example_conversation); reflexivity.
Defined.

(** C3: when the upstream call answers with a success status and a JSON
    body, the handler answers 200 with the JSON object holding [text];
    [text] is the texts of the parts of the first candidate put one after the
    other, a part without text counting as empty, and it is empty when the
    candidates, the first candidate, its content or its parts are missing. *)
Theorem relay_success_concatenates_parts :
  forall (request : Request) (env : Env)
         (upstream : GeminiRequest -> option GeminiResponse)
         (payload : RequestPayload) (geminiResponse : GeminiResponse)
         (data : GeminiData),
    method request = "POST" ->
    json request = Some payload ->
    truthy_opt (GEMINI_API_KEY env) = true ->
    upstream (buildUpstream payload env) = Some geminiResponse ->
    ok geminiResponse = true ->
    upstream_json geminiResponse = Some data ->
    exists text,
      snd (fetch request env upstream)
      = Returned {| status := 200;
                    headers := ("Content-Type", "application/json")
                               :: corsHeaders request;
                    body := JsonTextBody text |}
      /\ (forall c cs ct ps,
             candidates data = Some (c :: cs) ->
             candidate_content c = Some ct ->
             content_parts ct = Some ps ->
             text = fold_right
                      (fun part rest =>
                         (match part_text part with Some t => t | None => "" end)
                         ++ rest)
                      "" ps)
      /\ (candidates data = None
          \/ candidates data = Some []
          \/ (exists c cs,
                 candidates data = Some (c :: cs)
                 /\ (candidate_content c = None
                     \/ exists ct, candidate_content c = Some ct
                                   /\ content_parts ct = None)) ->
          text = "").
Proof.
  intros request env upstream payload g data Hm Hj Hk Hup Hok Hdata.
  exists (extractText data).
  rewrite (fetch_post _ _ upstream _ Hm Hj Hk), Hup, Hok, Hdata. cbn [snd].
  split; [reflexivity|]. unfold extractText. split.
  - intros c cs ct ps Hc Hct Hps. rewrite Hc. cbn [chain nth_error].
    rewrite Hct. cbn [chain]. rewrite Hps. cbn [option_map nullish].
    rewrite join_empty_sep. clear. induction ps as [|p ps IH]; simpl; [reflexivity|].
    rewrite IH. reflexivity.
  - intros [Hc|[Hc|(c & cs & Hc & [Hct|(ct & Hct & Hps)])]]; rewrite Hc; cbn [chain nth_error];
      try reflexivity; rewrite Hct; cbn [chain]; [reflexivity|].
    rewrite Hps. reflexivity.
Qed.

Lemma relay_success_concatenates_parts_witness :
  exists text,
    snd (fetch example_request example_env example_upstream)
    = Returned {| status := 200;
                  headers := ("Content-Type", "application/json")
                             :: corsHeaders example_request;
                  body := JsonTextBody text |}
    /\ text = "Hello, world".
Proof.
  destruct (relay_success_concatenates_parts example_request example_env
              example_upstream example_conversation example_answer _
              eq_refl eq_refl eq_refl eq_refl eq_refl eq_refl)
    as (text & Hres & Hparts & _).
  exists text. split; [exact Hres|].
  exact (Hparts _ _ _ _ eq_refl eq_refl eq_refl).
Defined.

(** C4, as the code has it: a POST without a configured credential makes
    no upstream call; it is answered 500 "Missing GEMINI_API_KEY" when its
    body parses, and the handler throws, answering nothing itself, when the
    body does not parse, since the body is read before the credential is
    looked at. *)
Theorem relay_missing_credential :
  forall (request : Request) (env : Env)
         (upstream : GeminiRequest -> option GeminiResponse),
    method request = "POST" ->
    truthy_opt (GEMINI_API_KEY env) = false ->
    fst (fetch request env upstream) = []
    /\ snd (fetch request env upstream)
       = match json request with
         | Some _ => Returned {| status := 500;
                                 headers := [];
                                 body := TextBody "Missing GEMINI_API_KEY" |}
         | None => Thrown
         end.
Proof.
  intros request env upstream Hm Hk. unfold fetch. rewrite Hm. simpl.
  destruct (json request); [|split; reflexivity].
  rewrite Hk. split; reflexivity.
Qed.

Lemma relay_missing_credential_witness :
  fst (fetch example_request {| GEMINI_API_KEY := None |} example_upstream) = []
  /\ snd (fetch example_request {| GEMINI_API_KEY := None |} example_upstream)
     = Returned {| status := 500;
                   headers := [];
                   body := TextBody "Missing GEMINI_API_KEY" |}.
Proof.
  apply (relay_missing_credential example_request {| GEMINI_API_KEY := None |}
           example_upstream); reflexivity.
Defined.

(** C4 fails as stated: a POST whose body is not JSON, with no credential
    configured, gets no response from the handler, of the 500 class or
    other. *)
Lemma relay_missing_credential_counterexample :
  ~ exists r : Response,
      snd (fetch {| method := "POST"; Origin := None; json := None |}
                 {| GEMINI_API_KEY := None |} example_upstream)
      = Returned r
      /\ 500 <= status r <= 599.
Proof.
  intros (r & Hr & _). discriminate Hr.
Qed.

(** C5: an OPTIONS request is answered 204 with no body and the three CORS
    headers, whatever its body, the allowed origin being the [Origin] of the
    request; a request whose method is neither POST nor OPTIONS is answered
    405.  Neither makes an upstream call. *)
Theorem relay_preflight_and_other_methods :
  forall (request : Request) (env : Env)
         (upstream : GeminiRequest -> option GeminiResponse),
    (method request = "OPTIONS" ->
     fetch request env upstream
     = ([], Returned {| status := 204;
                        headers := corsHeaders request;
                        body := NullBody |})
     /\ header "Access-Control-Allow-Methods" (corsHeaders request)
        = Some "POST, OPTIONS"
     /\ header "Access-Control-Allow-Headers" (corsHeaders request)
        = Some "Content-Type"
     /\ forall origin, Origin request = Some origin ->
          header "Access-Control-Allow-Origin" (corsHeaders request) = Some origin)
    /\ (method request <> "OPTIONS" -> method request <> "POST" ->
        fetch request env upstream
        = ([], Returned {| status := 405;
                           headers := [];
                           body := TextBody "Method not allowed" |})).
Proof.
  intros request env upstream. split.
  - intros Hm. unfold fetch. rewrite Hm. simpl.
    repeat split. intros origin Ho. unfold corsHeaders. rewrite Ho. reflexivity.
  - intros Ho Hp. unfold fetch.
    apply String.eqb_neq in Ho, Hp. rewrite Ho, Hp. reflexivity.
Qed.

Lemma relay_preflight_and_other_methods_witness :
  (fetch {| method := "OPTIONS"; Origin := Some "https://talkorithm.example";
            json := None |} example_env example_upstream
   = ([], Returned {| status := 204;
                      headers :=
                        [("Access-Control-Allow-Origin", "https://talkorithm.example");
                         ("Access-Control-Allow-Methods", "POST, OPTIONS");
                         ("Access-Control-Allow-Headers", "Content-Type")];
                      body := NullBody |}))
  /\ (fetch {| method := "GET"; Origin := None; json := None |}
            example_env example_upstream
      = ([], Returned {| status := 405;
                         headers := [];
                         body := TextBody "Method not allowed" |})).
Proof.
  split.
  - apply (proj1 (relay_preflight_and_other_methods
                    {| method := "OPTIONS";
                       Origin := Some "https://talkorithm.example";
                       json := None |} example_env example_upstream)).
    reflexivity.
  - apply (proj2 (relay_preflight_and_other_methods
                    {| method := "GET"; Origin := None; json := None |}
                    example_env example_upstream)); discriminate.
Defined.

(** C6: for a POST that reaches the upstream call, the system instruction
    sent is the caller's [system], an empty line, the line
    "Long-term memory:" and the caller's [memory]; for "S" and "M" it is the
    four lines written out below. *)
Theorem relay_system_instruction :
  forall (request : Request) (env : Env)
         (upstream : GeminiRequest -> option GeminiResponse)
         (payload : RequestPayload),
    method request = "POST" ->
    json request = Some payload ->
    truthy_opt (GEMINI_API_KEY env) = true ->
    exists call,
      fst (fetch request env upstream) = [call]
      /\ systemInstruction call
         = [Text (system payload ++ LF ++ LF ++ "Long-term memory:" ++ LF
                  ++ memory payload)]
      /\ (system payload = "S" -> memory payload = "M" ->
          systemInstruction call = [Text "S

Long-term memory:
M"]).
Proof.
  intros request env upstream payload Hm Hj Hk.
  exists (buildUpstream payload env).
  rewrite (fetch_post _ _ upstream _ Hm Hj Hk).
  cbn [fst buildUpstream systemInstruction]. unfold systemInstructionText.
  repeat split. intros -> ->. reflexivity.
Qed.

Lemma relay_system_instruction_witness :
  exists call,
    fst (fetch example_request example_env example_upstream) = [call]
    /\ systemInstruction call = [Text "S

Long-term memory:
M"]
    /\ contents call
       = [{| g_role := "user"; parts := [Text "hi"] |};
          {| g_role := "model"; parts := [Text "hello"] |};
          {| g_role := "user"; parts := [Text "why?"] |}].
Proof.
  destruct (relay_system_instruction example_request example_env
              example_upstream example_conversation eq_refl eq_refl eq_refl)
    as (call & Hcall & _ & Hsm).
  exists call. split; [exact Hcall|]. split; [exact (Hsm eq_refl eq_refl)|].
  simpl in Hcall. injection Hcall as <-. reflexivity.
Defined.

(** C10: a response of the handler carries the three CORS headers exactly
    when the request is an OPTIONS preflight or a POST answered 200; every
    other response (405, 500 for the missing credential, the relayed
    upstream failure) carries none of them; and the allowed origin is the
    [Origin] of the request, or "*" when the request has none.  These
    responses are given: the preflight is answered 204 with the three
    headers, the POST whose upstream call succeeds with a JSON body is
    answered 200 with them, and the 405, the 500 and the relayed failure are
    answered without. *)
Theorem relay_cors_headers :
  forall (request : Request) (env : Env)
         (upstream : GeminiRequest -> option GeminiResponse),
    (forall r : Response,
        snd (fetch request env upstream) = Returned r ->
        (hasCors r = true <->
         method request = "OPTIONS" \/ (method request = "POST" /\ status r = 200))
        /\ (hasCors r = false ->
            header "Access-Control-Allow-Origin" (headers r) = None
            /\ header "Access-Control-Allow-Methods" (headers r) = None
            /\ header "Access-Control-Allow-Headers" (headers r) = None)
        /\ (hasCors r = true ->
            header "Access-Control-Allow-Origin" (headers r)
            = Some (match Origin request with
                    | Some origin => origin
                    | None => "*"
                    end)))
    /\ (method request = "OPTIONS" ->
        exists r,
          snd (fetch request env upstream) = Returned r
          /\ status r = 204 /\ hasCors r = true
          /\ header "Access-Control-Allow-Origin" (headers r)
             = Some (match Origin request with
                     | Some origin => origin
                     | None => "*"
                     end)
          /\ header "Access-Control-Allow-Methods" (headers r) = Some "POST, OPTIONS"
          /\ header "Access-Control-Allow-Headers" (headers r) = Some "Content-Type")
    /\ (forall payload geminiResponse data,
           method request = "POST" ->
           json request = Some payload ->
           truthy_opt (GEMINI_API_KEY env) = true ->
           upstream (buildUpstream payload env) = Some geminiResponse ->
           ok geminiResponse = true ->
           upstream_json geminiResponse = Some data ->
           exists r,
             snd (fetch request env upstream) = Returned r
             /\ status r = 200 /\ hasCors r = true
             /\ header "Access-Control-Allow-Origin" (headers r)
                = Some (match Origin request with
                        | Some origin => origin
                        | None => "*"
                        end)
             /\ header "Access-Control-Allow-Methods" (headers r)
                = Some "POST, OPTIONS"
             /\ header "Access-Control-Allow-Headers" (headers r)
                = Some "Content-Type")
    /\ (method request <> "OPTIONS" -> method request <> "POST" ->
        exists r,
          snd (fetch request env upstream) = Returned r
          /\ status r = 405 /\ headers r = [] /\ hasCors r = false)
    /\ (forall payload,
           method request = "POST" ->
           json request = Some payload ->
           truthy_opt (GEMINI_API_KEY env) = false ->
           exists r,
             snd (fetch request env upstream) = Returned r
             /\ status r = 500 /\ headers r = [] /\ hasCors r = false)
    /\ (forall payload geminiResponse,
           method request = "POST" ->
           json request = Some payload ->
           truthy_opt (GEMINI_API_KEY env) = true ->
           upstream (buildUpstream payload env) = Some geminiResponse ->
           ok geminiResponse = false ->
           constructible (upstream_status geminiResponse)
                         (TextBody (upstream_text geminiResponse)) = true ->
           exists r,
             snd (fetch request env upstream) = Returned r
             /\ status r = upstream_status geminiResponse
             /\ headers r = [] /\ hasCors r = false).
Proof.
  intros request env upstream.
  split; [|split; [|split; [|split; [|split]]]].
  - intros r. unfold fetch.
    destruct (String.eqb_spec (method request) "OPTIONS") as [Ho|Ho].
    { cbn [snd]. intros H. injection H as <-. repeat split; auto; discriminate. }
    destruct (String.eqb_spec (method request) "POST") as [Hp|Hp]; cbn [negb].
    2:{ cbn [snd]. intros H. injection H as <-.
        repeat split; try discriminate; try reflexivity.
        intros [H|[H _]]; contradiction. }
    destruct (json request) as [payload|]; [|discriminate].
    destruct (truthy_opt (GEMINI_API_KEY env)); cbn [negb].
    2:{ cbn [snd]. intros H. injection H as <-.
        repeat split; try discriminate; try reflexivity.
        intros [H|[_ H]]; [contradiction|discriminate]. }
    destruct (upstream (buildUpstream payload env)) as [g|]; [|discriminate].
    destruct (ok g) eqn:Hok; cbn [negb].
    + destruct (upstream_json g) as [data|]; [|discriminate].
      cbn [snd]. intros H. injection H as <-.
      repeat split; auto; discriminate.
    + destruct (constructible (upstream_status g) (TextBody (upstream_text g)));
        [|discriminate].
      cbn [snd]. intros H. injection H as <-.
      repeat split; try discriminate; try reflexivity.
      intros [H|[_ H]]; [contradiction|]. cbn [status] in H.
      unfold ok in Hok. rewrite H in Hok. discriminate.
  - intros Hm. unfold fetch. rewrite Hm. cbn [String.eqb Ascii.eqb Bool.eqb snd].
    eexists. split; [reflexivity|].
    unfold corsHeaders. destruct (Origin request); repeat split.
  - intros payload g data Hm Hj Hk Hu Hok Hd.
    rewrite (fetch_post _ _ upstream _ Hm Hj Hk), Hu, Hok, Hd. cbn [snd].
    eexists. split; [reflexivity|].
    unfold corsHeaders. destruct (Origin request); repeat split.
  - intros Ho Hp. unfold fetch.
    apply String.eqb_neq in Ho, Hp. rewrite Ho, Hp. cbn [negb snd].
    eexists. repeat split.
  - intros payload Hm Hj Hk. unfold fetch. rewrite Hm, Hj, Hk.
    change ("POST" =? "OPTIONS")%string with false.
    change ("POST" =? "POST")%string with true. cbn [negb snd].
    eexists. repeat split.
  - intros payload g Hm Hj Hk Hu Hok Hc.
    rewrite (fetch_post _ _ upstream _ Hm Hj Hk), Hu, Hok, Hc. cbn [snd].
    eexists. repeat split.
Qed.

(** A preflight and a POST that succeeds end to end, both from a known
    origin, and a preflight without origin. *)
Lemma relay_cors_headers_witness :
  (exists r,
      snd (fetch {| method := "OPTIONS";
                    Origin := Some "https://talkorithm.example";
                    json := None |} example_env example_upstream) = Returned r
      /\ status r = 204 /\ hasCors r = true
      /\ header "Access-Control-Allow-Origin" (headers r)
         = Some "https://talkorithm.example"
      /\ header "Access-Control-Allow-Methods" (headers r) = Some "POST, OPTIONS"
      /\ header "Access-Control-Allow-Headers" (headers r) = Some "Content-Type")
  /\ (exists r,
         snd (fetch example_request example_env example_upstream) = Returned r
         /\ status r = 200 /\ hasCors r = true
         /\ header "Access-Control-Allow-Origin" (headers r)
            = Some "https://talkorithm.example"
         /\ header "Access-Control-Allow-Methods" (headers r) = Some "POST, OPTIONS"
         /\ header "Access-Control-Allow-Headers" (headers r) = Some "Content-Type")
  /\ (exists r,
         snd (fetch {| method := "OPTIONS"; Origin := None; json := None |}
                    example_env example_upstream) = Returned r
         /\ header "Access-Control-Allow-Origin" (headers r) = Some "*").
Proof.
  split; [|split].
  - exact (proj1 (proj2 (relay_cors_headers
                           {| method := "OPTIONS";
                              Origin := Some "https://talkorithm.example";
                              json := None |} example_env example_upstream))
                 eq_refl).
  - exact (proj1 (proj2 (proj2 (relay_cors_headers example_request example_env
                                  example_upstream)))
                 example_conversation example_answer _
                 eq_refl eq_refl eq_refl eq_refl eq_refl eq_refl).
  - destruct (proj1 (proj2 (relay_cors_headers
                              {| method := "OPTIONS"; Origin := None;
                                 json := None |} example_env example_upstream))
                    eq_refl) as (r & Hr & _ & _ & Ho & _).
    exists r. split; [exact Hr|exact Ho].
Defined.

End RelayClaims.

(** * Properties of the memory subscription and the memory summary *)

Section QueryFacts.
Import Db.
Context {A : Type} (field : A -> Z).

Lemma precedes_desc_true (a b : Doc A) :
  precedes field desc a b = true -> (newerFirst field) a b.
Proof.
  unfold precedes, newerFirst. intros H.
  apply orb_true_iff in H. destruct H as [H|H].
  - apply Z.ltb_lt in H. lia.
  - apply andb_true_iff in H. destruct H as [H _]. apply Z.eqb_eq in H. lia.
Qed.

Lemma precedes_desc_false (a b : Doc A) :
  precedes field desc a b = false -> (newerFirst field) b a.
Proof.
  unfold precedes, newerFirst. intros H.
  apply orb_false_iff in H. destruct H as [H _].
  apply Z.ltb_ge in H. exact H.
Qed.

Lemma insert_perm (dir : Direction) (d : Doc A) (l : list (Doc A)) :
  Permutation (insert field dir d l) (d :: l).
Proof.
  induction l as [|h t IH]; simpl; [apply Permutation_refl|].
  destruct (precedes field dir d h); [apply Permutation_refl|].
  apply perm_trans with (h :: d :: t); [apply perm_skip; exact IH|apply perm_swap].
Qed.

Lemma orderBy_perm (dir : Direction) (l : list (Doc A)) :
  Permutation (orderBy field dir l) l.
Proof.
  induction l as [|d l IH]; simpl; [apply perm_nil|].
  apply perm_trans with (d :: orderBy field dir l);
    [apply insert_perm|apply perm_skip; exact IH].
Qed.

Lemma insert_desc_sorted (d : Doc A) (l : list (Doc A)) :
  StronglySorted (newerFirst field) l ->
  StronglySorted (newerFirst field) (insert field desc d l).
Proof.
  induction l as [|h t IH]; intros Hs; cbn [insert].
  - constructor; constructor.
  - inversion Hs as [|? ? Ht Hh]; subst.
    destruct (precedes field desc d h) eqn:E.
    + constructor; [exact Hs|]. constructor.
      * apply precedes_desc_true. exact E.
      * apply precedes_desc_true in E.
        eapply Forall_impl; [|exact Hh].
        unfold newerFirst in *. intros x Hx. lia.
    + constructor; [apply IH; exact Ht|].
      apply (Permutation_Forall (Permutation_sym (insert_perm desc d t))).
      constructor; [apply precedes_desc_false; exact E|exact Hh].
Qed.

Lemma orderBy_desc_sorted (l : list (Doc A)) :
  StronglySorted (newerFirst field) (orderBy field desc l).
Proof.
  induction l as [|d l IH]; simpl; [constructor|].
  apply insert_desc_sorted. exact IH.
Qed.

Lemma sorted_firstn (R : Doc A -> Doc A -> Prop) (n : nat) (l : list (Doc A)) :
  StronglySorted R l -> StronglySorted R (firstn n l).
Proof.
  revert n. induction l as [|h t IH]; intros n Hs; destruct n; simpl;
    try constructor.
  - inversion Hs; subst. apply IH. assumption.
  - inversion Hs as [|? ? _ Hh]; subst.
    rewrite <- (firstn_skipn n t) in Hh. apply Forall_app in Hh. tauto.
Qed.

(** What [limit] leaves out is not newer than anything it keeps. *)
Lemma sorted_firstn_skipn (R : Doc A -> Doc A -> Prop) (n : nat) (l : list (Doc A)) :
  StronglySorted R l ->
  forall a b, In a (firstn n l) -> In b (skipn n l) -> R a b.
Proof.
  revert n. induction l as [|h t IH]; intros n Hs a b Ha Hb.
  - destruct n; destruct Ha.
  - destruct n; [destruct Ha|]. simpl in Ha, Hb.
    inversion Hs as [|? ? Ht Hh]; subst.
    destruct Ha as [<-|Ha].
    + rewrite Forall_forall in Hh. apply Hh.
      rewrite <- (firstn_skipn n t). apply in_or_app. right. exact Hb.
    + exact (IH n Ht a b Ha Hb).
Qed.

End QueryFacts.

Section MemoryClaims.
Import JS Db App.

Lemma concat_head (sep : string) (c : ascii) (a : string) (l : list string) :
  exists rest, String.concat sep (String c a :: l) = String c rest.
Proof.
  destruct l as [|b l]; simpl; eexists; reflexivity.
Qed.

(** The summary of a list that is not empty starts with a dash. *)
Lemma memorySummary_cons (m : MemoryItem) (ms : list MemoryItem) :
  exists rest, memorySummary (m :: ms) = String "-" rest.
Proof.
  exact (concat_head LF "-"
           (String " " (item_title m ++ ": " ++ item_detail m))
           (map memoryLine (firstn 7 ms))).
Qed.

Lemma sorted_map_items (l : list (Doc MemoryInput)) :
  StronglySorted (newerFirst memory_createdAt) l ->
  StronglySorted (fun a b => item_createdAt b <= item_createdAt a)
                 (map memoryItemOf l).
Proof.
  induction 1 as [|d l Hs IH Hd]; simpl; constructor; [exact IH|].
  apply Forall_map. eapply Forall_impl; [|exact Hd].
  intros x Hx. exact Hx.
Qed.

Lemma firstn_firstn_le {T : Type} (l : list T) :
  firstn 8 (firstn 24 l) = firstn 8 l.
Proof.
  rewrite firstn_firstn. reflexivity.
Qed.

(** C7: the summary is "No saved memory yet." exactly for the empty memory
    list; for any other list it is the lines "- title: detail" of its first
    eight items at most, joined by line feeds.  The list the subscription
    delivers holds at most 24 items, most recent first, and nothing the store
    holds beside them is more recent than one of them; so the summary shows
    the eight most recent notes of the account. *)
Theorem memory_summary_of_recent_items :
  forall (db : Store) (s : State) (uid : string),
    user s = Some uid ->
    (forall ms : list MemoryItem,
        memorySummary ms = "No saved memory yet." <-> ms = [])
    /\ (forall (m : MemoryItem) (ms : list MemoryItem),
           exists shown,
             shown = firstn 8 (m :: ms)
             /\ (length shown <= 8)%nat
             /\ memorySummary (m :: ms)
                = String.concat LF
                    (map (fun item =>
                            "- " ++ item_title item ++ ": " ++ item_detail item)
                         shown))
    /\ (length (memories (subscribed db s)) <= 24)%nat
    /\ StronglySorted (fun a b => item_createdAt b <= item_createdAt a)
                      (memories (subscribed db s))
    /\ (exists older,
           Permutation (map memoryItemOf (memoriesAt db uid))
                       (memories (subscribed db s) ++ older)
           /\ forall a b, In a (memories (subscribed db s)) -> In b older ->
                          item_createdAt b <= item_createdAt a)
    /\ firstn 8 (memories (subscribed db s))
       = map memoryItemOf
             (firstn 8 (orderBy memory_createdAt desc (memoriesAt db uid))).
Proof.
  intros db s uid Hu.
  assert (Hmem : memories (subscribed db s) = listenMemories uid db).
  { unfold subscribed. rewrite Hu. reflexivity. }
  rewrite Hmem. unfold listenMemories, limit.
  set (all := orderBy memory_createdAt desc (memoriesAt db uid)).
  split; [|split; [|split; [|split; [|split]]]].
  - intros ms. split.
    + destruct ms as [|m ms]; [reflexivity|].
      destruct (memorySummary_cons m ms) as (rest & ->). discriminate.
    + intros ->. reflexivity.
  - intros m ms. exists (firstn 8 (m :: ms)).
    split; [reflexivity|]. split; [apply firstn_le_length|]. reflexivity.
  - rewrite length_map. apply firstn_le_length.
  - apply sorted_map_items, sorted_firstn, orderBy_desc_sorted.
  - exists (map memoryItemOf (skipn 24 all)). split.
    + rewrite <- map_app, firstn_skipn. apply Permutation_map, Permutation_sym.
      apply orderBy_perm.
    + intros a b Ha Hb.
      apply in_map_iff in Ha. destruct Ha as (da & <- & Ha).
      apply in_map_iff in Hb. destruct Hb as (db' & <- & Hb).
      exact (sorted_firstn_skipn (newerFirst memory_createdAt) 24 all
               (orderBy_desc_sorted memory_createdAt _) da db' Ha Hb).
  - rewrite <- firstn_map, <- firstn_map, firstn_firstn_le. reflexivity.
Qed.

Lemma memory_summary_of_recent_items_witness :
  user Examples.shell = Some "u1"
  /\ memorySummary (memories (subscribed Examples.store Examples.shell))
     = "- Tries: prefix walk
- DP: state first
- Heaps: sift down"
  /\ StronglySorted (fun a b => item_createdAt b <= item_createdAt a)
                    (memories (subscribed Examples.store Examples.shell)).
Proof.
  split; [reflexivity|]. split; [reflexivity|].
  exact (proj1 (proj2 (proj2 (proj2
           (memory_summary_of_recent_items Examples.store Examples.shell "u1"
              eq_refl))))).
Defined.

End MemoryClaims.

(** * Properties of a send *)

Section SendClaims.
Import JS Db App.

Lemma persisted_posts (r : string) (calls : list (string * Relay.RequestPayload)) :
  persisted r (posts calls) = [].
Proof.
  induction calls as [|c calls IH]; simpl; [reflexivity|exact IH].
Qed.

Lemma persisted_posts_app (r : string)
    (calls : list (string * Relay.RequestPayload)) (rest : list Effect) :
  persisted r (posts calls ++ rest) = persisted r rest.
Proof.
  unfold persisted. rewrite flat_map_app.
  fold (persisted r (posts calls)). rewrite persisted_posts. reflexivity.
Qed.

Lemma persisted_Persist (r uid threadId : string) (m : MessageInput)
    (rest : list Effect) :
  persisted r (Persist uid threadId m :: rest)
  = ((if (role m =? r)%string then [m] else []) ++ persisted r rest)%list.
Proof.
  reflexivity.
Qed.

Lemma persisted_nil (r : string) : persisted r [] = [].
Proof.
  reflexivity.
Qed.

(** A trace of speech calls writes nothing and posts nothing. *)
Lemma persisted_speech (r response : string) (speech : list Effect) :
  Forall (fun e => e = StopSpeaking \/ e = Speak response) speech ->
  persisted r speech = [].
Proof.
  induction 1 as [|e speech [->| ->] _ IH]; simpl; auto.
Qed.

(** The turns written by a trace, read off its shape. *)
Ltac turns :=
  rewrite ?persisted_Persist, ?persisted_posts_app, ?persisted_posts;
  rewrite ?persisted_Persist, ?persisted_nil;
  cbn [role String.eqb Ascii.eqb Bool.eqb app].

(** What a send that passes the guards comes to, by the outcome of the
    relay call: the catch branch, or the assistant turn followed by speech
    calls only. *)
Lemma send_outcomes (trim : string -> string) (w : World) (text : string)
    (fromVoice : bool) (s : State) (db : Store) (uid : string) :
  user s = Some uid ->
  trim text <> "" ->
  loading s = false ->
  let userTurn := {| role := "user"; content := trim text; createdAt := now w |} in
  let relay := Gemini.sendMentorChat (GEMINI_PROXY_URL w) (proxy w)
                 (outgoing w (trim text) s) in
  let db1 := addMessage (userDocId w) uid THREAD_ID userTurn db in
  match snd relay with
  | None =>
      exists s',
        handleSendText trim w text fromVoice s db
        = (s', db1, (Persist uid THREAD_ID userTurn :: posts (fst relay))%list)
        /\ error s' = Some "Unable to reach the mentor right now."
        /\ loading s' = false
  | Some response =>
      let reply := {| role := "assistant"; content := response;
                      createdAt := later w |} in
      exists s' speech,
        handleSendText trim w text fromVoice s db
        = (s', addMessage (assistantDocId w) uid THREAD_ID reply db1,
           (Persist uid THREAD_ID userTurn :: posts (fst relay)
            ++ Persist uid THREAD_ID reply :: speech)%list)
        /\ error s' = None
        /\ Forall (fun e => e = StopSpeaking \/ e = Speak response) speech
  end.
Proof.
  intros Hu Ht Hl. cbv zeta.
  apply truthy_true in Ht.
  unfold handleSendText. rewrite Hu, Ht, Hl. cbn [negb orb].
  replace (outgoing w (trim text)
             (setLoading true (if negb fromVoice
                               then setInput "" (setError None s)
                               else setError None s)))
    with (outgoing w (trim text) s) by (destruct fromVoice; reflexivity).
  destruct (Gemini.sendMentorChat (GEMINI_PROXY_URL w) (proxy w)
              (outgoing w (trim text) s)) as [calls [response|]]; cbn [fst snd].
  - assert (Hstop : forall b : bool,
               Forall (fun e => e = StopSpeaking \/ e = Speak response)
                      (if b then [StopSpeaking] else [])).
    { intros [|]; [constructor; [left; reflexivity|constructor]|constructor]. }
    assert (Hstop' : forall b : bool,
               Forall (fun e => e = StopSpeaking \/ e = Speak response)
                      ((if b then [StopSpeaking] else []) ++ [Speak response])).
    { intros b. apply Forall_app. split; [apply Hstop|].
      constructor; [right; reflexivity|constructor]. }
    destruct (autoSpeak _ && userGesture _).
    + destruct (speechSynthesis w); cbn [negb andb].
      * destruct (voicesReady w); cbn [negb].
        -- destruct (utteranceEnds w); cbn [negb];
             eexists; eexists;
             (split; [cbn [app]; rewrite <- !app_assoc; reflexivity|]);
             (split; [destruct fromVoice; reflexivity|apply Hstop']).
        -- eexists; eexists.
           split; [cbn [app]; rewrite <- !app_assoc; reflexivity|].
           split; [destruct fromVoice; reflexivity|apply Hstop].
      * eexists; eexists.
        split; [cbn [app]; rewrite <- !app_assoc; reflexivity|].
        split; [destruct fromVoice; reflexivity|].
        rewrite andb_false_r. constructor.
    + exists (setLoading false
                (setLoading true (if negb fromVoice
                                  then setInput "" (setError None s)
                                  else setError None s))), [].
      split; [reflexivity|]. split; [destruct fromVoice; reflexivity|constructor].
  - eexists. split; [reflexivity|]. split; reflexivity.
Qed.

(** C8: a send that passes the guards writes the user turn to the store
    first and calls the relay after it.  When the relay call fails, nothing
    else is done to the store, which is the store before the send with the
    user turn added, no assistant turn is written, and the error shown is
    "Unable to reach the mentor right now.".  An assistant turn is written
    only when the relay call succeeds, and it is then the relay's answer.
    This holds whatever [trim] strips from the text. *)
Theorem send_keeps_user_turn_on_failure :
  forall (trim : string -> string) (w : World) (text : string)
         (fromVoice : bool) (s : State) (db : Store) (uid : string),
    user s = Some uid ->
    trim text <> "" ->
    loading s = false ->
    let userTurn := {| role := "user"; content := trim text; createdAt := now w |} in
    let relay := Gemini.sendMentorChat (GEMINI_PROXY_URL w) (proxy w)
                   (outgoing w (trim text) s) in
    let s' := fst (fst (handleSendText trim w text fromVoice s db)) in
    let db' := snd (fst (handleSendText trim w text fromVoice s db)) in
    let trace := snd (handleSendText trim w text fromVoice s db) in
    (exists rest,
        trace = (Persist uid THREAD_ID userTurn :: posts (fst relay) ++ rest)%list
        /\ persisted "user" trace = [userTurn])
    /\ (snd relay = None ->
        trace = (Persist uid THREAD_ID userTurn :: posts (fst relay))%list
        /\ db' = addMessage (userDocId w) uid THREAD_ID userTurn db
        /\ messagesAt db' uid THREAD_ID
           = (messagesAt db uid THREAD_ID
              ++ [{| doc_id := userDocId w; doc_data := userTurn |}])%list
        /\ persisted "assistant" trace = []
        /\ error s' = Some "Unable to reach the mentor right now."
        /\ loading s' = false)
    /\ (forall reply,
           In reply (persisted "assistant" trace) ->
           snd relay = Some (content reply))
    /\ (forall response,
           snd relay = Some response ->
           persisted "assistant" trace
           = [{| role := "assistant"; content := response; createdAt := later w |}]
           /\ messagesAt db' uid THREAD_ID
              = (messagesAt db uid THREAD_ID
                 ++ [{| doc_id := userDocId w; doc_data := userTurn |};
                     {| doc_id := assistantDocId w;
                        doc_data := {| role := "assistant"; content := response;
                                       createdAt := later w |} |}])%list
           /\ error s' = None).
Proof.
  intros trim w text fromVoice s db uid Hu Ht Hl. cbv zeta.
  pose proof (send_outcomes trim w text fromVoice s db uid Hu Ht Hl) as Hout.
  cbv zeta in Hout.
  assert (Hat : forall d l db0, messagesAt
                  (addMessage d uid THREAD_ID l db0) uid THREAD_ID
                = (messagesAt db0 uid THREAD_ID ++ [{| doc_id := d; doc_data := l |}])%list).
  { intros d l db0. cbn [addMessage messagesAt]. rewrite !String.eqb_refl. reflexivity. }
  destruct (snd (Gemini.sendMentorChat (GEMINI_PROXY_URL w) (proxy w)
                   (outgoing w (trim text) s))) as [response|].
  - destruct Hout as (s' & speech & -> & Herr & Hspeech). cbn [fst snd].
    pose proof (persisted_speech "user" response speech Hspeech) as Hu0.
    pose proof (persisted_speech "assistant" response speech Hspeech) as Ha0.
    split; [|split; [|split]].
    + eexists. split; [reflexivity|]. turns. rewrite Hu0. reflexivity.
    + discriminate.
    + intros reply. turns. rewrite Ha0. intros [<-|[]]. reflexivity.
    + intros r Hr. injection Hr as <-. split; [|split].
      * turns. rewrite Ha0. reflexivity.
      * rewrite !Hat, <- app_assoc. reflexivity.
      * exact Herr.
  - destruct Hout as (s' & -> & Herr & Hload). cbn [fst snd].
    split; [|split; [|split]].
    + exists []. rewrite app_nil_r. split; [reflexivity|]. turns. reflexivity.
    + intros _. split; [reflexivity|]. split; [reflexivity|].
      split; [apply Hat|]. split; [turns; reflexivity|].
      split; [exact Herr|exact Hload].
    + intros reply. turns. intros [].
    + discriminate.
Qed.

Lemma send_keeps_user_turn_on_failure_witness :
  user Examples.shell = Some "u1"
  /\ trim "  why is it O(n)? " = "why is it O(n)?"
  /\ loading Examples.shell = false
  /\ snd (Gemini.sendMentorChat
            (GEMINI_PROXY_URL (Examples.world Gemini.NetworkError))
            (proxy (Examples.world Gemini.NetworkError))
            (outgoing (Examples.world Gemini.NetworkError)
                      "why is it O(n)?" Examples.shell)) = None
  /\ messagesAt
       (snd (fst (handleSendText trim (Examples.world Gemini.NetworkError)
                    "  why is it O(n)? " false Examples.shell Examples.store)))
       "u1" THREAD_ID
     = [{| doc_id := "m1";
           doc_data := {| role := "user"; content := "why is it O(n)?";
                          createdAt := 1000 |} |}]
  /\ error (fst (fst (handleSendText trim (Examples.world Gemini.NetworkError)
                        "  why is it O(n)? " false Examples.shell Examples.store)))
     = Some "Unable to reach the mentor right now.".
Proof.
  split; [reflexivity|]. split; [reflexivity|]. split; [reflexivity|].
  split; [reflexivity|].
  destruct (send_keeps_user_turn_on_failure trim
              (Examples.world Gemini.NetworkError) "  why is it O(n)? " false
              Examples.shell Examples.store "u1" eq_refl
              ltac:(discriminate) eq_refl) as (_ & Hfail & _).
  destruct (Hfail eq_refl) as (_ & _ & Hstore & _ & Herror & _).
  split; [exact Hstore|exact Herror].
Defined.

End SendClaims.

(** * Properties of the drawing surface *)

Section WhiteboardClaims.
Import Whiteboard.

Lemma drawnSinceClear_app (b : bool) (ops1 ops2 : list CanvasOp) :
  drawnSinceClear b (ops1 ++ ops2)
  = drawnSinceClear (drawnSinceClear b ops1) ops2.
Proof.
  revert b. induction ops1 as [|[|k|] ops1 IH]; intros b; simpl; auto.
Qed.

(** No event changes whether the canvas and its context are there. *)
Lemma step_canvas (s : State) (e : Event) :
  canvas (fst (step s e)) = canvas s
  /\ context2d (fst (step s e)) = context2d s.
Proof.
  destruct e; simpl;
    unfold handlePointerDown, handlePointerMove, handlePointerUp, clearCanvas,
           handleResize, getPoint;
    destruct s as [cv cx dr lp ls di tl co sz csz bm]; simpl;
    destruct cv, cx, dr, di, tl, lp, ls; simpl; auto.
Qed.

Lemma run_canvas (es : list Event) :
  forall s, canvas (fst (run s es)) = canvas s
            /\ context2d (fst (run s es)) = context2d s.
Proof.
  induction es as [|e es IH]; intros s; simpl; [auto|].
  destruct (step s e) as [s1 ops1] eqn:E1.
  destruct (run s1 es) as [s2 ops2] eqn:E2. simpl.
  specialize (IH s1). rewrite E2 in IH. simpl in IH.
  pose proof (step_canvas s e) as Hs. rewrite E1 in Hs. simpl in Hs.
  destruct IH as [-> ->]. exact Hs.
Qed.

(** One event keeps the flag set whenever a stroke follows the last
    [clearRect]. *)
Lemma step_dirty (s : State) (e : Event) (b : bool) :
  (b = true -> dirty s = true) ->
  drawnSinceClear b (snd (step s e)) = true ->
  dirty (fst (step s e)) = true.
Proof.
  intros Hb.
  destruct e; simpl;
    unfold handlePointerDown, handlePointerMove, handlePointerUp, clearCanvas,
           handleResize, getPoint;
    destruct s as [cv cx dr lp ls di tl co sz csz bm]; simpl in *;
    destruct cv, cx, dr, di, tl, lp, ls; simpl; auto; discriminate.
Qed.

Lemma run_dirty (es : list Event) :
  forall (s : State) (b : bool),
    (b = true -> dirty s = true) ->
    drawnSinceClear b (snd (run s es)) = true ->
    dirty (fst (run s es)) = true.
Proof.
  induction es as [|e es IH]; intros s b Hb; simpl; [exact Hb|].
  destruct (step s e) as [s1 ops1] eqn:E1.
  destruct (run s1 es) as [s2 ops2] eqn:E2. simpl.
  rewrite drawnSinceClear_app. intros Hd.
  specialize (IH s1 (drawnSinceClear b ops1)). rewrite E2 in IH. simpl in IH.
  apply IH; [|exact Hd].
  pose proof (step_dirty s e b Hb) as Hs. rewrite E1 in Hs. exact Hs.
Qed.

(** C9, as the code has it: after any sequence of events on the mounted
    component, [clear] leaves the flag unset, [hasDrawing] is the flag, and
    [getDataUrl] gives the encoding of the canvas exactly when the flag is
    set and nothing otherwise; the flag is set whenever a stroke was drawn
    since the last clear, so a snapshot is then returned. *)
Theorem whiteboard_snapshot_follows_flag :
  forall (toDataURL : list Stroke -> string) (es : list Event),
    let s := fst (run initial es) in
    let ops := snd (run initial es) in
    dirty (fst (clearCanvas s)) = false
    /\ hasDrawing (fst (clearCanvas s)) = false
    /\ getDataUrl toDataURL (fst (clearCanvas s)) = None
    /\ hasDrawing s = dirty s
    /\ (dirty s = true <-> getDataUrl toDataURL s = Some (toDataURL (bitmap s)))
    /\ (dirty s = false <-> getDataUrl toDataURL s = None)
    /\ (drawnSinceClear false ops = true ->
        getDataUrl toDataURL s = Some (toDataURL (bitmap s))).
Proof.
  intros toDataURL es s ops.
  destruct (run_canvas es initial) as [Hc Hx]. fold s in Hc, Hx.
  simpl in Hc, Hx.
  assert (Hget : getDataUrl toDataURL s
                 = if dirty s then Some (toDataURL (bitmap s)) else None).
  { unfold getDataUrl. rewrite Hc. destruct (dirty s); reflexivity. }
  assert (Hclear : dirty (fst (clearCanvas s)) = false).
  { unfold clearCanvas. rewrite Hc, Hx. reflexivity. }
  split; [exact Hclear|]. split; [exact Hclear|].
  split.
  { unfold getDataUrl. rewrite Hclear, orb_true_r. reflexivity. }
  split; [reflexivity|].
  split; [|split].
  - rewrite Hget. destruct (dirty s); split; intros H; try reflexivity; discriminate.
  - rewrite Hget. destruct (dirty s); split; intros H; try reflexivity; discriminate.
  - intros Hd. rewrite Hget.
    assert (Hds : dirty s = true).
    { apply (run_dirty es initial false); [discriminate|exact Hd]. }
    rewrite Hds. reflexivity.
Qed.

(** A finished sketch: a pen stroke, a clear, then a line. *)
Lemma whiteboard_snapshot_follows_flag_witness :
  drawnSinceClear false (snd (run initial Examples.sketch)) = true
  /\ getDataUrl (fun _ => "data:image/png;base64,AAA=")
                (fst (run initial Examples.sketch))
     = Some "data:image/png;base64,AAA=".
Proof.
  split; [reflexivity|].
  exact (proj2 (proj2 (proj2 (proj2 (proj2 (proj2
           (whiteboard_snapshot_follows_flag
              (fun _ => "data:image/png;base64,AAA=") Examples.sketch))))))
           eq_refl).
Defined.

(** C9 fails as stated: while a line is being dragged and before it is
    released, no canvas call has been made, yet the flag is set and
    [getDataUrl] returns the encoding of the blank canvas. *)
Lemma whiteboard_snapshot_counterexample :
  snd (run initial Examples.lineDrag) = []
  /\ drawnSinceClear false (snd (run initial Examples.lineDrag)) = false
  /\ bitmap (fst (run initial Examples.lineDrag)) = []
  /\ hasDrawing (fst (run initial Examples.lineDrag)) = true
  /\ getDataUrl (fun _ => "data:image/png;base64,AAA=")
                (fst (run initial Examples.lineDrag))
     = Some "data:image/png;base64,AAA=".
Proof.
  repeat split; reflexivity.
Qed.

End WhiteboardClaims.

(** * Further properties of the relay worker *)

Section RelayMore.
Import JS Relay.

Lemma mapi_from_app {A B : Type} (f : A -> Z -> B) (l1 l2 : list A) :
  forall k, mapi_from k f (l1 ++ l2)%list
            = (mapi_from k f l1
               ++ mapi_from (k + Z.of_nat (length l1)) f l2)%list.
Proof.
  induction l1 as [|a l1 IH]; intros k; simpl.
  - rewrite Z.add_0_r. reflexivity.
  - rewrite IH. do 3 f_equal. lia.
Qed.

(** Before the last position an entry is the role and the text alone. *)
Lemma mapi_from_plain (payload : RequestPayload) (l : list Message) :
  forall k,
    k + Z.of_nat (length l) <= Z.of_nat (length (messages payload)) - 1 ->
    mapi_from k (toContent payload) l
    = map (fun m => {| g_role := if (role m =? "assistant")%string
                                 then "model" else "user";
                       parts := [Text (content m)] |}) l.
Proof.
  induction l as [|m l IH]; intros k Hk; simpl; [reflexivity|].
  simpl in Hk. rewrite IH by lia. f_equal.
  unfold toContent.
  replace (k =? Z.of_nat (length (messages payload)) - 1) with false
    by (symmetry; apply Z.eqb_neq; lia).
  reflexivity.
Qed.

(** The calls of the handler: one for a POST with a body and a credential,
    none otherwise. *)
Lemma fetch_calls (request : Request) (env : Env)
    (upstream : GeminiRequest -> option GeminiResponse) :
  fst (fetch request env upstream)
  = if (method request =? "POST")%string
    then match json request with
         | Some payload =>
             if truthy_opt (GEMINI_API_KEY env)
             then [buildUpstream payload env] else []
         | None => []
         end
    else [].
Proof.
  destruct (String.eqb_spec (method request) "POST") as [Hp|Hp].
  - destruct (json request) as [payload|] eqn:Hj.
    + destruct (truthy_opt (GEMINI_API_KEY env)) eqn:Hk.
      * rewrite (fetch_post _ _ upstream _ Hp Hj Hk). reflexivity.
      * unfold fetch. rewrite Hp, Hj, Hk. reflexivity.
    + unfold fetch. rewrite Hp, Hj. reflexivity.
  - unfold fetch. apply String.eqb_neq in Hp. rewrite Hp.
    destruct (method request =? "OPTIONS")%string; reflexivity.
Qed.

(** X1: the handler never makes more than one upstream call.  It makes
    none for a method other than POST, for a body that is not JSON and when
    no credential is configured.  For a POST whose body is a payload of the
    declared shape, with a credential configured, it makes exactly one,
    whatever the upstream answers: a POST to the fixed endpoint followed by
    the credential, built from the body. *)
Theorem relay_upstream_called_once :
  forall (request : Request) (env : Env)
         (upstream : GeminiRequest -> option GeminiResponse),
    (length (fst (fetch request env upstream)) <= 1)%nat
    /\ (method request <> "POST" -> fst (fetch request env upstream) = [])
    /\ (json request = None -> fst (fetch request env upstream) = [])
    /\ (truthy_opt (GEMINI_API_KEY env) = false ->
        fst (fetch request env upstream) = [])
    /\ (forall payload,
           method request = "POST" ->
           json request = Some payload ->
           truthy_opt (GEMINI_API_KEY env) = true ->
           fst (fetch request env upstream) = [buildUpstream payload env]
           /\ upstream_method (buildUpstream payload env) = "POST"
           /\ exists key,
                GEMINI_API_KEY env = Some key /\ key <> ""
                /\ url (buildUpstream payload env) = endpoint ++ key).
Proof.
  intros request env upstream. rewrite fetch_calls.
  split; [|split; [|split; [|split]]].
  - destruct (method request =? "POST")%string; [|simpl; lia].
    destruct (json request); [|simpl; lia].
    destruct (truthy_opt (GEMINI_API_KEY env)); simpl; lia.
  - intros Hp. apply String.eqb_neq in Hp. rewrite Hp. reflexivity.
  - intros ->. destruct (method request =? "POST")%string; reflexivity.
  - intros ->. destruct (method request =? "POST")%string; [|reflexivity].
    destruct (json request); reflexivity.
  - intros payload Hp Hj Hk. rewrite Hp, Hj, Hk.
    split; [reflexivity|]. split; [reflexivity|].
    destruct (GEMINI_API_KEY env) as [key|] eqn:Ek; [|discriminate].
    exists key. cbn [truthy_opt] in Hk. apply truthy_true in Hk.
    split; [reflexivity|]. split; [exact Hk|].
    cbn [buildUpstream url]. rewrite Ek. reflexivity.
Qed.

Lemma relay_upstream_called_once_witness :
  fst (fetch example_request example_env example_upstream)
  = [buildUpstream example_conversation example_env]
  /\ fst (fetch example_request {| GEMINI_API_KEY := Some "" |} example_upstream)
     = [].
Proof.
  split.
  - exact (proj1 (proj2 (proj2 (proj2 (proj2
             (relay_upstream_called_once example_request example_env
                example_upstream))))
             example_conversation eq_refl eq_refl eq_refl)).
  - exact (proj1 (proj2 (proj2 (proj2
             (relay_upstream_called_once example_request
                {| GEMINI_API_KEY := Some "" |} example_upstream))))
             eq_refl).
Defined.

(** X2: a request that is not a POST is always answered.  A POST makes the
    handler throw, answering nothing itself, when its body is not JSON,
    before any upstream call; and, for a body of the declared shape with a
    credential, after the one upstream call, when that call is rejected or
    when it answers a success status with a body that is not JSON. *)
Theorem relay_throws_without_answer :
  forall (request : Request) (env : Env)
         (upstream : GeminiRequest -> option GeminiResponse),
    (method request <> "POST" ->
     exists r, snd (fetch request env upstream) = Returned r)
    /\ (method request = "POST" -> json request = None ->
        fetch request env upstream = ([], Thrown))
    /\ (forall payload,
           method request = "POST" ->
           json request = Some payload ->
           truthy_opt (GEMINI_API_KEY env) = true ->
           (upstream (buildUpstream payload env) = None ->
            fetch request env upstream = ([buildUpstream payload env], Thrown))
           /\ (forall g,
                  upstream (buildUpstream payload env) = Some g ->
                  ok g = true -> upstream_json g = None ->
                  fetch request env upstream
                  = ([buildUpstream payload env], Thrown))).
Proof.
  intros request env upstream. split; [|split].
  - intros Hp. unfold fetch. apply String.eqb_neq in Hp. rewrite Hp.
    destruct (method request =? "OPTIONS")%string; eexists; reflexivity.
  - intros Hp Hj. unfold fetch. rewrite Hp, Hj. reflexivity.
  - intros payload Hp Hj Hk. rewrite (fetch_post _ _ upstream _ Hp Hj Hk).
    split.
    + intros ->. reflexivity.
    + intros g -> -> ->. reflexivity.
Qed.

Lemma relay_throws_without_answer_witness :
  fetch example_request example_env (fun _ => None)
  = ([buildUpstream example_conversation example_env], Thrown)
  /\ fetch {| method := "POST"; Origin := None; json := None |}
           example_env example_upstream
     = ([], Thrown).
Proof.
  split.
  - exact (proj1 (proj2 (proj2 (relay_throws_without_answer example_request
                                  example_env (fun _ => None)))
                        example_conversation eq_refl eq_refl eq_refl)
                 eq_refl).
  - exact (proj1 (proj2 (relay_throws_without_answer
                           {| method := "POST"; Origin := None; json := None |}
                           example_env example_upstream))
                 eq_refl eq_refl).
Defined.

End RelayMore.

Section RelayPayload.
Import JS Relay.

Lemma imageParts_plain (l : list Message) :
  flat_map imageParts
    (map (fun m => {| g_role := if (role m =? "assistant")%string
                                then "model" else "user";
                      parts := [Text (content m)] |}) l) = [].
Proof.
  induction l as [|m l IH]; simpl; [reflexivity|exact IH].
Qed.

(** The entries of a body that ends with [m]. *)
Lemma buildContents_snoc (payload : RequestPayload) (init : list Message)
    (m : Message) :
  messages payload = (init ++ [m])%list ->
  buildContents payload
  = (map (fun x => {| g_role := if (role x =? "assistant")%string
                                then "model" else "user";
                      parts := [Text (content x)] |}) init
     ++ [toContent payload m (Z.of_nat (length init))])%list.
Proof.
  intros Hm. unfold buildContents, mapi. rewrite Hm at 1. rewrite mapi_from_app.
  rewrite mapi_from_plain.
  - reflexivity.
  - rewrite Hm, length_app. simpl. lia.
Qed.

(** X3: every message before the last is sent as its mapped role and its
    text alone, whatever the request carries; only the entry of the last
    message can differ, so the whole payload holds at most one inline image,
    and none when the last message is not from the user. *)
Theorem relay_only_last_entry_can_carry_image :
  forall (payload : RequestPayload) (init : list Message) (m : Message),
    messages payload = (init ++ [m])%list ->
    buildContents payload
    = (map (fun x => {| g_role := if (role x =? "assistant")%string
                                  then "model" else "user";
                        parts := [Text (content x)] |}) init
       ++ [toContent payload m (Z.of_nat (length init))])%list
    /\ (length (flat_map imageParts (buildContents payload)) <= 1)%nat
    /\ (role m <> "user" -> flat_map imageParts (buildContents payload) = []).
Proof.
  intros payload init m Hm.
  pose proof (buildContents_snoc payload init m Hm) as Hb.
  split; [exact Hb|].
  rewrite Hb, flat_map_app, imageParts_plain. cbn [app flat_map].
  rewrite app_nil_r. unfold imageParts. rewrite toContent_parts.
  split.
  - destruct ((Z.of_nat (length init) =? Z.of_nat (length (messages payload)) - 1)
              && (role m =? "user")%string); [|simpl; lia].
    destruct (imageDataUrl payload) as [u|]; [|simpl; lia].
    destruct (nth_error (split "," u) 1) as [d|]; [|simpl; lia].
    destruct (truthy d); simpl; lia.
  - intros Hr. apply String.eqb_neq in Hr. rewrite Hr, andb_false_r. reflexivity.
Qed.

Lemma relay_only_last_entry_can_carry_image_witness :
  buildContents example_conversation
  = [{| g_role := "user"; parts := [Text "hi"] |};
     {| g_role := "model"; parts := [Text "hello"] |};
     toContent example_conversation {| role := "user"; content := "why?" |} 2].
Proof.
  exact (proj1 (relay_only_last_entry_can_carry_image example_conversation
                  [{| role := "user"; content := "hi" |};
                   {| role := "assistant"; content := "hello" |}]
                  {| role := "user"; content := "why?" |} eq_refl)).
Defined.

(** X4: whatever roles the body carries, the upstream payload only uses the
    roles "model" and "user": "assistant" becomes "model" and every other
    role, inside the declared vocabulary or not, becomes "user". *)
Theorem relay_roles_stay_in_upstream_vocabulary :
  forall payload : RequestPayload,
    Forall (fun c => g_role c = "model" \/ g_role c = "user")
           (buildContents payload)
    /\ Forall2 (fun m c =>
                  (g_role c = "model" <-> role m = "assistant")
                  /\ (g_role c = "user" <-> role m <> "assistant"))
               (messages payload) (buildContents payload).
Proof.
  intros payload.
  assert (H2 : Forall2 (fun m c =>
                          (g_role c = "model" <-> role m = "assistant")
                          /\ (g_role c = "user" <-> role m <> "assistant"))
                       (messages payload) (buildContents payload)).
  { unfold buildContents, mapi. apply mapi_from_Forall2.
    intros m i. unfold toContent. cbn [g_role].
    destruct (String.eqb_spec (role m) "assistant") as [E|E]; split; split;
      intros H; try reflexivity; try assumption; try discriminate; contradiction. }
  split; [|exact H2].
  induction H2 as [|m c ms cs [H1 H3] _ IH]; constructor; [|exact IH].
  destruct (String.eqb_spec (role m) "assistant") as [E|E].
  - left. apply H1. exact E.
  - right. apply H3. exact E.
Qed.

(** X5: the text taken from an upstream answer depends on its first
    candidate only, and the text of parts put one after the other is the
    texts put one after the other. *)
Theorem relay_text_of_first_candidate :
  forall (c : GeminiCandidate) (cs : list GeminiCandidate)
         (ps1 ps2 : list GeminiPart),
    extractText {| candidates := Some (c :: cs) |}
    = extractText {| candidates := Some [c] |}
    /\ extractText
         {| candidates :=
              Some ({| candidate_content :=
                         Some {| content_parts := Some (ps1 ++ ps2)%list |} |} :: cs) |}
       = extractText
           {| candidates :=
                Some [{| candidate_content :=
                           Some {| content_parts := Some ps1 |} |}] |}
         ++ extractText
              {| candidates :=
                   Some [{| candidate_content :=
                              Some {| content_parts := Some ps2 |} |}] |}.
Proof.
  intros c cs ps1 ps2. split; [reflexivity|].
  unfold extractText. cbn [candidates chain nth_error candidate_content
                           content_parts option_map nullish].
  rewrite !join_empty_sep, map_app, fold_right_app.
  induction (map (fun part => nullish (part_text part) "") ps1) as [|a l IH];
    simpl; [reflexivity|].
  rewrite IH. clear. induction a as [|ch a IHa]; simpl; [reflexivity|].
  rewrite IHa. reflexivity.
Qed.



End RelayPayload.

(** * Further properties of the persistence client *)

Section QueryMore.
Import Db.
Context {A : Type} (field : A -> Z).

Lemma precedes_asc_true (a b : Doc A) :
  precedes field asc a b = true -> olderFirst field a b.
Proof.
  unfold precedes, olderFirst. intros H.
  apply orb_true_iff in H. destruct H as [H|H].
  - apply Z.ltb_lt in H. lia.
  - apply andb_true_iff in H. destruct H as [H _]. apply Z.eqb_eq in H. lia.
Qed.

Lemma precedes_asc_false (a b : Doc A) :
  precedes field asc a b = false -> olderFirst field b a.
Proof.
  unfold precedes, olderFirst. intros H.
  apply orb_false_iff in H. destruct H as [H _].
  apply Z.ltb_ge in H. exact H.
Qed.

Lemma insert_asc_sorted (d : Doc A) (l : list (Doc A)) :
  StronglySorted (olderFirst field) l ->
  StronglySorted (olderFirst field) (insert field asc d l).
Proof.
  induction l as [|h t IH]; intros Hs; cbn [insert].
  - constructor; constructor.
  - inversion Hs as [|? ? Ht Hh]; subst.
    destruct (precedes field asc d h) eqn:E.
    + constructor; [exact Hs|]. constructor.
      * apply precedes_asc_true. exact E.
      * apply precedes_asc_true in E.
        eapply Forall_impl; [|exact Hh].
        unfold olderFirst in *. intros x Hx. lia.
    + constructor; [apply IH; exact Ht|].
      apply (Permutation_Forall (Permutation_sym (insert_perm field asc d t))).
      constructor; [apply precedes_asc_false; exact E|exact Hh].
Qed.

Lemma orderBy_asc_sorted (l : list (Doc A)) :
  StronglySorted (olderFirst field) (orderBy field asc l).
Proof.
  induction l as [|d l IH]; simpl; [constructor|].
  apply insert_asc_sorted. exact IH.
Qed.

Lemma orderBy_length (dir : Direction) (l : list (Doc A)) :
  length (orderBy field dir l) = length l.
Proof.
  apply Permutation_length, orderBy_perm.
Qed.

(** A document newer than this one stays behind it. *)
Lemma insert_asc_before_newest (h d : Doc A) (l : list (Doc A)) :
  field (doc_data h) < field (doc_data d) ->
  insert field asc h (l ++ [d]) = (insert field asc h l ++ [d])%list.
Proof.
  intros Hlt. induction l as [|x l IH]; cbn [insert app].
  - unfold precedes. apply Z.ltb_lt in Hlt. rewrite Hlt. reflexivity.
  - destruct (precedes field asc h x); [reflexivity|].
    rewrite IH. reflexivity.
Qed.

Lemma orderBy_asc_newest_last (d : Doc A) (l : list (Doc A)) :
  (forall x, In x l -> field (doc_data x) < field (doc_data d)) ->
  orderBy field asc (l ++ [d]) = (orderBy field asc l ++ [d])%list.
Proof.
  induction l as [|h l IH]; intros Hall; [reflexivity|].
  cbn [app orderBy fold_right]. fold (orderBy field asc (l ++ [d])).
  fold (orderBy field asc l).
  rewrite IH by (intros x Hx; apply Hall; right; exact Hx).
  apply insert_asc_before_newest. apply Hall. left. reflexivity.
Qed.

Lemma orderBy_desc_newest_first (d : Doc A) (l : list (Doc A)) :
  (forall x, In x l -> field (doc_data x) < field (doc_data d)) ->
  orderBy field desc (l ++ [d]) = d :: orderBy field desc l.
Proof.
  induction l as [|h l IH]; intros Hall; [reflexivity|].
  cbn [app orderBy fold_right]. fold (orderBy field desc (l ++ [d])).
  fold (orderBy field desc l).
  rewrite IH by (intros x Hx; apply Hall; right; exact Hx).
  cbn [insert]. unfold precedes.
  assert (Hlt : field (doc_data h) < field (doc_data d))
    by (apply Hall; left; reflexivity).
  replace (field (doc_data d) <? field (doc_data h)) with false
    by (symmetry; apply Z.ltb_ge; lia).
  replace (field (doc_data h) =? field (doc_data d)) with false
    by (symmetry; apply Z.eqb_neq; lia).
  reflexivity.
Qed.

End QueryMore.

Section StringFacts.

Lemma string_append_assoc (a b c : string) : (a ++ b) ++ c = a ++ (b ++ c).
Proof.
  induction a as [|ch a IH]; simpl; [reflexivity|]. rewrite IH. reflexivity.
Qed.

Lemma string_append_nil_r (a : string) : a ++ "" = a.
Proof.
  induction a as [|ch a IH]; simpl; [reflexivity|]. rewrite IH. reflexivity.
Qed.

End StringFacts.

Section DbClaims.
Import JS Db.

Lemma messagesAt_addMessage (newId uid threadId : string) (message : MessageInput)
    (db : Store) :
  messagesAt (addMessage newId uid threadId message db) uid threadId
  = (messagesAt db uid threadId
     ++ [{| doc_id := newId; doc_data := message |}])%list.
Proof.
  cbn [addMessage messagesAt]. rewrite !String.eqb_refl. reflexivity.
Qed.

Lemma memoriesAt_addMemory (newId uid : string) (memory : MemoryInput)
    (db : Store) :
  memoriesAt (addMemory newId uid memory db) uid
  = (memoriesAt db uid ++ [{| doc_id := newId; doc_data := memory |}])%list.
Proof.
  cbn [addMemory memoriesAt]. rewrite String.eqb_refl. reflexivity.
Qed.

Lemma sorted_map_messages (l : list (Doc MessageInput)) :
  StronglySorted (olderFirst createdAt) l ->
  StronglySorted (fun a b => message_createdAt a <= message_createdAt b)
                 (map messageOf l).
Proof.
  induction 1 as [|d l Hs IH Hd]; simpl; constructor; [exact IH|].
  apply Forall_map. eapply Forall_impl; [|exact Hd].
  intros x Hx. exact Hx.
Qed.

(** X7: the message subscription delivers at most 100 messages, oldest
    first, every one of them stored in the thread; what it leaves out is not
    older than anything it delivers, so the window holds the oldest
    messages of the thread. *)
Theorem messages_window_is_oldest_first :
  forall (db : Store) (uid threadId : string),
    (length (listenMessages uid threadId db) <= 100)%nat
    /\ StronglySorted (fun a b => message_createdAt a <= message_createdAt b)
                      (listenMessages uid threadId db)
    /\ exists newer,
         Permutation (map messageOf (messagesAt db uid threadId))
                     (listenMessages uid threadId db ++ newer)
         /\ forall a b, In a (listenMessages uid threadId db) -> In b newer ->
                        message_createdAt a <= message_createdAt b.
Proof.
  intros db uid threadId. unfold listenMessages, limit.
  set (all := orderBy createdAt asc (messagesAt db uid threadId)).
  split; [|split].
  - rewrite length_map. apply firstn_le_length.
  - apply sorted_map_messages, sorted_firstn, orderBy_asc_sorted.
  - exists (map messageOf (skipn 100 all)). split.
    + rewrite <- map_app, firstn_skipn. apply Permutation_map, Permutation_sym.
      apply orderBy_perm.
    + intros a b Ha Hb.
      apply in_map_iff in Ha. destruct Ha as (da & <- & Ha).
      apply in_map_iff in Hb. destruct Hb as (db' & <- & Hb).
      exact (sorted_firstn_skipn (olderFirst createdAt) 100 all
               (orderBy_asc_sorted createdAt _) da db' Ha Hb).
Qed.

(** X8: in a thread that already holds 100 messages or more, a message
    newer than all of them is stored but never delivered: the subscription
    hands over the same list as before the write. *)
Theorem newest_message_beyond_window_is_not_delivered :
  forall (db : Store) (newId uid threadId : string) (message : MessageInput),
    (100 <= length (messagesAt db uid threadId))%nat ->
    (forall d, In d (messagesAt db uid threadId) ->
               createdAt (doc_data d) < createdAt message) ->
    In {| doc_id := newId; doc_data := message |}
       (messagesAt (addMessage newId uid threadId message db) uid threadId)
    /\ listenMessages uid threadId (addMessage newId uid threadId message db)
       = listenMessages uid threadId db.
Proof.
  intros db newId uid threadId message Hlen Hnew.
  rewrite messagesAt_addMessage. split.
  - apply in_or_app. right. left. reflexivity.
  - unfold listenMessages, limit. rewrite messagesAt_addMessage.
    rewrite (orderBy_asc_newest_last createdAt
               {| doc_id := newId; doc_data := message |} _ Hnew).
    rewrite firstn_app, (orderBy_length createdAt asc).
    replace (100 - length (messagesAt db uid threadId))%nat with 0%nat by lia.
    cbn [firstn]. rewrite app_nil_r. reflexivity.
Qed.

(** X9: in a thread that holds fewer than 100 messages, a message newer
    than all of them is delivered last, after the messages delivered
    before the write. *)
Theorem newest_message_within_window_is_delivered_last :
  forall (db : Store) (newId uid threadId : string) (message : MessageInput),
    (length (messagesAt db uid threadId) < 100)%nat ->
    (forall d, In d (messagesAt db uid threadId) ->
               createdAt (doc_data d) < createdAt message) ->
    listenMessages uid threadId (addMessage newId uid threadId message db)
    = (listenMessages uid threadId db
       ++ [{| message_id := newId;
              message_role := role message;
              message_content := content message;
              message_createdAt := createdAt message |}])%list.
Proof.
  intros db newId uid threadId message Hlen Hnew.
  unfold listenMessages, limit. rewrite messagesAt_addMessage.
  rewrite (orderBy_asc_newest_last createdAt
             {| doc_id := newId; doc_data := message |} _ Hnew).
  rewrite !firstn_all2.
  - rewrite map_app. reflexivity.
  - rewrite (orderBy_length createdAt asc). lia.
  - rewrite length_app, (orderBy_length createdAt asc). simpl. lia.
Qed.

(** X10: a note newer than all the notes of the account is delivered first
    by the memory subscription, followed by at most 23 of the notes
    delivered before, so it opens the summary of the next prompt. *)
Theorem newest_memory_is_delivered_first :
  forall (db : Store) (newId uid : string) (memory : MemoryInput),
    (forall d, In d (memoriesAt db uid) ->
               memory_createdAt (doc_data d) < memory_createdAt memory) ->
    listenMemories uid (addMemory newId uid memory db)
    = {| item_id := newId; item_title := title memory;
         item_detail := detail memory;
         item_createdAt := memory_createdAt memory |}
      :: firstn 23 (listenMemories uid db)
    /\ exists rest,
         App.memorySummary (listenMemories uid (addMemory newId uid memory db))
         = "- " ++ title memory ++ ": " ++ detail memory ++ rest.
Proof.
  intros db newId uid memory Hnew.
  assert (Hl : listenMemories uid (addMemory newId uid memory db)
               = {| item_id := newId; item_title := title memory;
                    item_detail := detail memory;
                    item_createdAt := memory_createdAt memory |}
                 :: firstn 23 (listenMemories uid db)).
  { unfold listenMemories, limit. rewrite memoriesAt_addMemory.
    rewrite (orderBy_desc_newest_first memory_createdAt
               {| doc_id := newId; doc_data := memory |} _ Hnew).
    change (firstn 24 (?d :: ?l)) with (d :: firstn 23 l). cbn [map].
    rewrite firstn_map, firstn_firstn. reflexivity. }
  split; [exact Hl|]. rewrite Hl.
  unfold App.memorySummary, JS.join. cbn [length Nat.eqb].
  change (firstn 8 (?x :: ?l)) with (x :: firstn 7 l). cbn [map].
  unfold App.memoryLine at 1. cbn [item_title item_detail].
  destruct (map App.memoryLine (firstn 7 (firstn 23 (listenMemories uid db))))
    as [|l ls].
  - exists "". cbn [String.concat]. rewrite string_append_nil_r. reflexivity.
  - eexists. cbn [String.concat]. rewrite !string_append_assoc. reflexivity.
Qed.

Lemma turns_before (n : nat) (d : Doc MessageInput) :
  (n <= 5000)%nat ->
  In d (Examples.turns n) ->
  createdAt (doc_data d) < createdAt Examples.lateTurn.
Proof.
  intros Hn Hd. unfold Examples.turns in Hd. apply in_map_iff in Hd.
  destruct Hd as (i & <- & Hi). apply in_seq in Hi. simpl. lia.
Qed.

Lemma newest_message_beyond_window_is_not_delivered_witness :
  (100 <= length (messagesAt (Examples.threadOf 100) "u1" "main"))%nat
  /\ listenMessages "u1" "main"
       (addMessage "late" "u1" "main" Examples.lateTurn (Examples.threadOf 100))
     = listenMessages "u1" "main" (Examples.threadOf 100).
Proof.
  split; [apply le_n|].
  apply (newest_message_beyond_window_is_not_delivered (Examples.threadOf 100)
           "late" "u1" "main" Examples.lateTurn).
  - apply le_n.
  - intros d. apply turns_before. apply Nat.leb_le. reflexivity.
Defined.

Lemma newest_message_within_window_is_delivered_last_witness :
  (length (messagesAt (Examples.threadOf 3) "u1" "main") < 100)%nat
  /\ listenMessages "u1" "main"
       (addMessage "late" "u1" "main" Examples.lateTurn (Examples.threadOf 3))
     = (listenMessages "u1" "main" (Examples.threadOf 3)
        ++ [{| message_id := "late"; message_role := "user";
               message_content := "one more"; message_createdAt := 5000 |}])%list.
Proof.
  split; [apply Nat.ltb_lt; reflexivity|].
  apply (newest_message_within_window_is_delivered_last (Examples.threadOf 3)
           "late" "u1" "main" Examples.lateTurn).
  - apply Nat.ltb_lt. reflexivity.
  - intros d. apply turns_before. apply Nat.leb_le. reflexivity.
Defined.

Lemma newest_memory_is_delivered_first_witness :
  listenMemories "u1" (addMemory "d" "u1" Examples.lateNote Examples.store)
  = {| item_id := "d"; item_title := "Graphs"; item_detail := "BFS layers";
       item_createdAt := 40 |}
    :: firstn 23 (listenMemories "u1" Examples.store).
Proof.
  apply (newest_memory_is_delivered_first Examples.store "d" "u1"
           Examples.lateNote).
  intros d [<-|[<-|[<-|[]]]]; reflexivity.
Defined.

End DbClaims.

(** * Facts about the string operations *)

Section TrimFacts.
Import JS.

Lemma trim_start_blank (s : string) :
  trim_start s = "" <-> Forall (fun c => is_space c = true) (list_ascii_of_string s).
Proof.
  induction s as [|c s IH]; simpl.
  - split; [constructor|reflexivity].
  - destruct (is_space c) eqn:E.
    + rewrite IH. split; [intros H; constructor; assumption|].
      intros H. inversion H; assumption.
    + split; [discriminate|]. intros H. inversion H; congruence.
Qed.

Lemma trim_start_head (s : string) (c : ascii) (r : string) :
  trim_start s = String c r -> is_space c = false.
Proof.
  induction s as [|a s IH]; simpl; [discriminate|].
  destruct (is_space a) eqn:E; [exact IH|].
  intros H. injection H as <- _. exact E.
Qed.

Lemma trim_end_head (s : string) (c : ascii) (r : string) :
  trim_end s = String c r -> exists r', s = String c r'.
Proof.
  destruct s as [|a s]; simpl; [discriminate|].
  destruct (trim_end s).
  - destruct (is_space a); [discriminate|].
    intros H. injection H as <- _. eexists; reflexivity.
  - intros H. injection H as <- _. eexists; reflexivity.
Qed.

Lemma trim_end_nonblank (c : ascii) (r : string) :
  is_space c = false -> trim_end (String c r) <> "".
Proof.
  intros E. simpl. destruct (trim_end r); [rewrite E|]; discriminate.
Qed.

Lemma trim_end_last (s r : string) (c : ascii) :
  trim_end s = r ++ String c "" -> is_space c = false.
Proof.
  revert r. induction s as [|a s IH]; intros r; simpl.
  - destruct r; discriminate.
  - destruct (trim_end s) as [|k kept] eqn:E.
    + destruct (is_space a) eqn:Ea; [destruct r; discriminate|].
      destruct r as [|b r]; simpl.
      * intros H. injection H as <-. exact Ea.
      * intros H. injection H as _ H. destruct r; discriminate.
    + destruct r as [|b r]; simpl.
      * intros H. injection H as _ H. discriminate.
      * intros H. injection H as _ H. exact (IH r H).
Qed.

(** White space only trims to nothing, and nothing else does. *)
Lemma trim_blank (s : string) :
  trim s = "" <-> Forall (fun c => is_space c = true) (list_ascii_of_string s).
Proof.
  unfold trim. rewrite <- trim_start_blank.
  destruct (trim_start s) as [|c r] eqn:E.
  - split; reflexivity.
  - split; [|discriminate]. intros H. exfalso.
    exact (trim_end_nonblank c r (trim_start_head s c r E) H).
Qed.

Lemma trim_head (s : string) (c : ascii) (r : string) :
  trim s = String c r -> is_space c = false.
Proof.
  unfold trim. intros H. apply trim_end_head in H. destruct H as (r' & H).
  exact (trim_start_head s c r' H).
Qed.

Lemma trim_last (s r : string) (c : ascii) :
  trim s = r ++ String c "" -> is_space c = false.
Proof.
  unfold trim. apply trim_end_last.
Qed.

Lemma trim_start_length (s : string) :
  (String.length (trim_start s) <= String.length s)%nat.
Proof.
  induction s as [|c s IH]; simpl; [lia|].
  destruct (is_space c); simpl; lia.
Qed.

Lemma trim_end_length (s : string) :
  (String.length (trim_end s) <= String.length s)%nat.
Proof.
  induction s as [|c s IH]; simpl; [lia|].
  destruct (trim_end s); [destruct (is_space c)|]; simpl in *; lia.
Qed.

Lemma trim_length (s : string) : (String.length (trim s) <= String.length s)%nat.
Proof.
  unfold trim. pose proof (trim_end_length (trim_start s)).
  pose proof (trim_start_length s). lia.
Qed.

Lemma trim_start_chars (s : string) (c : ascii) :
  In c (list_ascii_of_string (trim_start s)) -> In c (list_ascii_of_string s).
Proof.
  induction s as [|a s IH]; simpl; [auto|].
  destruct (is_space a); simpl; auto.
Qed.

Lemma trim_end_chars (s : string) (c : ascii) :
  In c (list_ascii_of_string (trim_end s)) -> In c (list_ascii_of_string s).
Proof.
  induction s as [|a s IH]; simpl; [auto|].
  destruct (trim_end s) eqn:E.
  - destruct (is_space a); simpl; tauto.
  - simpl in *. tauto.
Qed.

Lemma trim_chars (s : string) (c : ascii) :
  In c (list_ascii_of_string (trim s)) -> In c (list_ascii_of_string s).
Proof.
  unfold trim. intros H. apply trim_start_chars, trim_end_chars. exact H.
Qed.

Lemma slice0_length (n : nat) (s : string) :
  (String.length (slice0 n s) <= n)%nat.
Proof.
  revert s. induction n as [|n IH]; intros s; simpl; [lia|].
  destruct s; simpl; [lia|]. specialize (IH s). lia.
Qed.

Lemma replace_spaces_from_length (b : bool) (s : string) :
  (String.length (replace_spaces_from b s) <= String.length s)%nat.
Proof.
  revert b. induction s as [|c s IH]; intros b; simpl; [lia|].
  destruct (is_space c); [destruct b|]; simpl.
  - specialize (IH true). lia.
  - specialize (IH true). lia.
  - specialize (IH false). lia.
Qed.

(** After the replacement the only white space left is the plain space. *)
Lemma replace_spaces_from_chars (b : bool) (s : string) (c : ascii) :
  In c (list_ascii_of_string (replace_spaces_from b s)) ->
  is_space c = true -> c = " "%char.
Proof.
  revert b. induction s as [|a s IH]; intros b; simpl; [tauto|].
  destruct (is_space a) eqn:E; [destruct b|]; simpl.
  - apply IH.
  - intros [<-|H]; [reflexivity|]. exact (IH true H).
  - intros [<-|H]; [congruence|]. exact (IH false H).
Qed.

(** A space is never followed by a space after the replacement. *)
Lemma replace_spaces_from_single (b : bool) (s : string) :
  forall (pre post : string) (c1 c2 : ascii),
    replace_spaces_from b s = pre ++ String c1 (String c2 post) ->
    is_space c1 = true -> is_space c2 = false.
Proof.
  assert (Hhead : forall s0 c r, replace_spaces_from true s0 = String c r ->
                                 is_space c = false).
  { induction s0 as [|a s0 IH0]; simpl; [discriminate|].
    destruct (is_space a) eqn:E; [exact IH0|].
    intros c r H. injection H as <- _. exact E. }
  revert b. induction s as [|a s IH]; intros b pre post c1 c2; simpl.
  - destruct pre; discriminate.
  - destruct (is_space a) eqn:E; [destruct b|].
    + apply IH.
    + destruct pre as [|p pre]; simpl; intros H; injection H as H1 H2.
      * intros _. exact (Hhead s c2 post H2).
      * exact (IH true pre post c1 c2 H2).
    + destruct pre as [|p pre]; simpl; intros H; injection H as H1 H2.
      * subst c1. congruence.
      * exact (IH false pre post c1 c2 H2).
Qed.

End TrimFacts.

Section TrimShape.
Import JS.

Lemma trim_start_suffix (s : string) : exists w, s = w ++ trim_start s.
Proof.
  induction s as [|c s (w & IH)]; simpl.
  - exists "". reflexivity.
  - destruct (is_space c).
    + exists (String c w). simpl. rewrite <- IH. reflexivity.
    + exists "". reflexivity.
Qed.

Lemma trim_end_prefix (s : string) : exists w, s = trim_end s ++ w.
Proof.
  induction s as [|c s (w & IH)]; simpl.
  - exists "". reflexivity.
  - destruct (trim_end s) as [|k kept] eqn:E.
    + destruct (is_space c).
      * exists (String c s). reflexivity.
      * exists s. reflexivity.
    + exists w. simpl in *. rewrite <- IH. reflexivity.
Qed.

(** What [trim] returns sits inside what it was given. *)
Lemma trim_inside (s : string) : exists w1 w2, s = w1 ++ trim s ++ w2.
Proof.
  unfold trim. destruct (trim_start_suffix s) as (w1 & H1).
  destruct (trim_end_prefix (trim_start s)) as (w2 & H2).
  exists w1, w2. rewrite <- H2. exact H1.
Qed.

(** The text kept for a note: no white space at either end, no white space
    but the plain space, no two of them in a row, and no longer than the
    slice it was cut from. *)
Lemma tidy_text (n : nat) (s : string) :
  let t := trim (replace_spaces (slice0 n s)) in
  (String.length t <= n)%nat
  /\ (forall c r, t = String c r -> is_space c = false)
  /\ (forall r c, t = r ++ String c "" -> is_space c = false)
  /\ (forall c, In c (list_ascii_of_string t) -> is_space c = true -> c = " "%char)
  /\ (forall pre post c1 c2,
         t = pre ++ String c1 (String c2 post) ->
         is_space c1 = true -> is_space c2 = false).
Proof.
  cbv zeta. split; [|split; [|split; [|split]]].
  - pose proof (trim_length (replace_spaces (slice0 n s))).
    pose proof (replace_spaces_from_length false (slice0 n s)).
    pose proof (slice0_length n s). unfold replace_spaces in *. lia.
  - intros c r. apply trim_head.
  - intros r c. apply trim_last.
  - intros c Hc. apply trim_chars in Hc.
    exact (replace_spaces_from_chars false _ c Hc).
  - intros pre post c1 c2 Ht.
    destruct (trim_inside (replace_spaces (slice0 n s))) as (w1 & w2 & Hw).
    rewrite Ht in Hw. unfold replace_spaces in Hw.
    apply (replace_spaces_from_single false (slice0 n s) (w1 ++ pre) (post ++ w2)).
    rewrite Hw. rewrite !string_append_assoc. reflexivity.
Qed.

End TrimShape.

(** * Further properties of the application shell *)

Section ShellMore.
Import JS Db App.

(** X12: the summary is never the empty string and only depends on the
    first eight items of the memory list: of the 24 items the subscription
    can deliver, the ninth and later never reach the prompt. *)
Theorem memory_summary_uses_eight_items :
  forall ms : list MemoryItem,
    memorySummary ms <> ""
    /\ memorySummary ms = memorySummary (firstn 8 ms)
    /\ forall more, (8 <= length ms)%nat ->
                    memorySummary (ms ++ more) = memorySummary ms.
Proof.
  intros ms. split; [|split].
  - destruct ms as [|m ms]; [discriminate|].
    destruct (memorySummary_cons m ms) as (rest & ->). discriminate.
  - destruct ms as [|m ms]; [reflexivity|].
    unfold memorySummary. rewrite firstn_firstn.
    change (firstn 8 (m :: ms)) with (m :: firstn 7 ms). reflexivity.
  - intros more Hlen. unfold memorySummary.
    rewrite length_app. destruct ms as [|m ms]; [simpl in Hlen; lia|].
    cbn [length Nat.add Nat.eqb].
    rewrite firstn_app.
    replace (8 - length (m :: ms))%nat with 0%nat by lia.
    cbn [firstn]. rewrite app_nil_r. reflexivity.
Qed.

Lemma memory_summary_uses_eight_items_witness :
  memorySummary (listenMemories "u1" Examples.store) <> "".
Proof.
  exact (proj1 (memory_summary_uses_eight_items (listenMemories "u1" Examples.store))).
Defined.

(** X13: [handleSendText] does something exactly when an account is
    signed in, the loading flag is off and the text holds a character that
    is not white space; otherwise it leaves the state and the store as they
    were and writes and posts nothing. *)
Theorem send_runs_exactly_when :
  forall (w : World) (text : string) (fromVoice : bool) (s : State) (db : Store),
    (snd (handleSendText trim w text fromVoice s db) <> []
     <-> user s <> None /\ loading s = false
         /\ exists c, In c (list_ascii_of_string text) /\ is_space c = false)
    /\ (snd (handleSendText trim w text fromVoice s db) = [] ->
        handleSendText trim w text fromVoice s db = (s, db, [])).
Proof.
  intros w text fromVoice s db.
  assert (Hblank : truthy (trim text) = false
                   <-> ~ exists c, In c (list_ascii_of_string text)
                                   /\ is_space c = false).
  { unfold truthy. rewrite negb_false_iff, String.eqb_eq, trim_blank, Forall_forall.
    split.
    - intros H (c & Hc & Hs). rewrite (H c Hc) in Hs. discriminate.
    - intros H c Hc. destruct (is_space c) eqn:E; [reflexivity|].
      exfalso. apply H. exists c. split; assumption. }
  destruct (user s) as [uid|] eqn:Hu.
  2:{ unfold handleSendText. rewrite Hu. cbn [snd]. split; [|reflexivity].
      split; [intros H; contradiction|]. intros (H & _). contradiction. }
  destruct (truthy (trim text)) eqn:Ht.
  2:{ unfold handleSendText. rewrite Hu, Ht. cbn [negb orb snd].
      split; [|reflexivity].
      split; [intros H; contradiction|]. intros (_ & _ & H).
      apply Hblank in H; [contradiction|reflexivity]. }
  destruct (loading s) eqn:Hl.
  { unfold handleSendText. rewrite Hu, Ht, Hl. cbn [negb orb snd].
    split; [|reflexivity].
    split; [intros H; contradiction|]. intros (_ & H & _). discriminate. }
  assert (Hex : exists c, In c (list_ascii_of_string text) /\ is_space c = false).
  { destruct (trim text) as [|c r] eqn:E; [discriminate|].
    exists c. split; [|exact (trim_head text c r E)].
    apply trim_chars. rewrite E. left. reflexivity. }
  assert (Hne : trim text <> "") by (apply truthy_true; exact Ht).
  pose proof (send_outcomes trim w text fromVoice s db uid Hu Hne Hl) as Hout.
  cbv zeta in Hout.
  assert (Hrun : snd (handleSendText trim w text fromVoice s db) <> []).
  { destruct (snd (Gemini.sendMentorChat _ _ _)).
    - destruct Hout as (s' & speech & -> & _). discriminate.
    - destruct Hout as (s' & -> & _). discriminate. }
  split.
  - split; [intros _|intros _; exact Hrun].
    split; [discriminate|]. split; [reflexivity|exact Hex].
  - intros H. contradiction.
Qed.

Lemma send_runs_exactly_when_witness :
  handleSendText trim (Examples.world Gemini.NetworkError) Examples.blanks false
    Examples.shell Examples.store
  = (Examples.shell, Examples.store, []).
Proof.
  apply (proj2 (send_runs_exactly_when (Examples.world Gemini.NetworkError)
                  Examples.blanks false Examples.shell Examples.store)).
  reflexivity.
Defined.

End ShellMore.

Section ShellRelay.
Import JS Db App.






End ShellRelay.

Section SaveMemory.
Import JS Db App.

Lemma replace_spaces_from_blank (b : bool) (s : string) :
  Forall (fun c => is_space c = true) (list_ascii_of_string s) ->
  Forall (fun c => is_space c = true)
         (list_ascii_of_string (replace_spaces_from b s)).
Proof.
  revert b. induction s as [|a s IH]; intros b H; simpl; [constructor|].
  inversion H as [|? ? Ha Hs]; subst. rewrite Ha.
  destruct b; [apply IH; exact Hs|].
  simpl. constructor; [reflexivity|apply IH; exact Hs].
Qed.

(** X17: saving a message adds one note to the notes of the signed-in
    account and nothing when nobody is signed in.  The title is never empty
    and has at most 64 UTF-16 code units, the detail at most 220; each is
    free of white space (no-break space included) at both ends, holds no
    white space other than plain spaces and never two of them in a row; a
    message whose first 64 code units are all white space gets the title
    "Saved insight". *)
Theorem saved_note_is_tidy :
  forall (newId : string) (clock : Z) (message : Message) (s : State) (db : Store),
    let note := memoryOf clock message in
    (user s = None -> handleSaveMemory newId clock message s db = db)
    /\ (forall uid, user s = Some uid ->
          memoriesAt (handleSaveMemory newId clock message s db) uid
          = (memoriesAt db uid ++ [{| doc_id := newId; doc_data := note |}])%list)
    /\ title note <> ""
    /\ (String.length (title note) <= 64)%nat
    /\ (String.length (detail note) <= 220)%nat
    /\ (forall t, t = title note \/ t = detail note ->
          (forall c r, t = String c r -> is_space c = false)
          /\ (forall r c, t = r ++ String c "" -> is_space c = false)
          /\ (forall c, In c (list_ascii_of_string t) -> is_space c = true ->
                        c = " "%char)
          /\ (forall pre post c1 c2,
                 t = pre ++ String c1 (String c2 post) ->
                 is_space c1 = true -> is_space c2 = false))
    /\ (Forall (fun c => is_space c = true)
               (list_ascii_of_string (slice0 64 (message_content message))) ->
        title note = "Saved insight")
    /\ memory_createdAt note = clock.
Proof.
  intros newId clock message s db. cbv zeta.
  assert (Hshape : forall t, t = title (memoryOf clock message)
                             \/ t = detail (memoryOf clock message) ->
                   exists n s0, (n <= 220)%nat
                                /\ t = trim (replace_spaces (slice0 n s0))).
  { intros t [->| ->]; cbn [memoryOf title detail].
    - destruct (truthy (trim (replace_spaces (slice0 64 (message_content message))))).
      + exists 64%nat, (message_content message). split; [lia|reflexivity].
      + exists 64%nat, "Saved insight". split; [lia|reflexivity].
    - exists 220%nat, (message_content message). split; [lia|reflexivity]. }
  split; [|split; [|split; [|split; [|split; [|split; [|split]]]]]].
  - intros Hu. unfold handleSaveMemory. rewrite Hu. reflexivity.
  - intros uid Hu. unfold handleSaveMemory. rewrite Hu.
    apply memoriesAt_addMemory.
  - cbn [memoryOf title].
    destruct (truthy (trim (replace_spaces (slice0 64 (message_content message)))))
      eqn:E; [apply truthy_true; exact E|discriminate].
  - cbn [memoryOf title].
    destruct (truthy (trim (replace_spaces (slice0 64 (message_content message))))).
    + exact (proj1 (tidy_text 64 (message_content message))).
    + simpl. lia.
  - cbn [memoryOf detail]. exact (proj1 (tidy_text 220 (message_content message))).
  - intros t Ht. destruct (Hshape t Ht) as (n & s0 & _ & ->).
    exact (proj2 (tidy_text n s0)).
  - intros Hblank. cbn [memoryOf title].
    replace (trim (replace_spaces (slice0 64 (message_content message)))) with "".
    + reflexivity.
    + symmetry. apply trim_blank. apply replace_spaces_from_blank. exact Hblank.
  - reflexivity.
Qed.

Lemma saved_note_is_tidy_witness :
  user Examples.shell = Some "u1"
  /\ memoriesAt (handleSaveMemory "n1" 3000 Examples.longAnswer Examples.shell
                   (Examples.threadOf 0)) "u1"
     = [{| doc_id := "n1";
           doc_data := {| title := "Use a heap: push, then pop.";
                          detail := "Use a heap: push, then pop.";
                          memory_createdAt := 3000 |} |}].
Proof.
  split; [reflexivity|].
  exact (proj1 (proj2 (saved_note_is_tidy "n1" 3000 Examples.longAnswer
                         Examples.shell (Examples.threadOf 0))) "u1" eq_refl).
Defined.

End SaveMemory.

(** * Further properties of the drawing surface *)

Section WhiteboardMore.
Import Whiteboard.

Lemma run_app (es1 es2 : list Event) :
  forall s,
    run s (es1 ++ es2)
    = (fst (run (fst (run s es1)) es2),
       (snd (run s es1) ++ snd (run (fst (run s es1)) es2))%list).
Proof.
  induction es1 as [|e es1 IH]; intros s; simpl.
  - destruct (run s es2); reflexivity.
  - destruct (step s e) as [s1 ops1]. rewrite IH.
    destruct (run s1 es1) as [s2 ops2]. simpl.
    destruct (run s2 es2) as [s3 ops3]. simpl.
    rewrite app_assoc. reflexivity.
Qed.

Lemma last_cons {T : Type} (l : list T) :
  forall x d, last (x :: l) d = last l x.
Proof.
  induction l as [|y l IH]; intros x d; [reflexivity|].
  change (last (x :: y :: l) d) with (last (y :: l) d).
  rewrite (IH y d), (IH y x). reflexivity.
Qed.

(** The moves of a pressed pointer with the pen or the eraser. *)
Lemma freehand_moves (tl : Tool) (co : string) (sz : Z) (csz : Size)
    (ls : option Point) (ps : list Point) :
  Tool_eqb tl line = false ->
  forall (a : Point) (di : bool) (bm : list Stroke),
    run {| canvas := true; context2d := true; drawing := true;
           lastPoint := Some a; lineStart := ls; dirty := di;
           tool := tl; color := co; size := sz; canvasSize := csz;
           bitmap := bm |}
        (map PointerMove ps)
    = ({| canvas := true; context2d := true; drawing := true;
          lastPoint := Some (last ps a); lineStart := ls;
          dirty := di || negb (length ps =? 0)%nat;
          tool := tl; color := co; size := sz; canvasSize := csz;
          bitmap :=
            (bm ++ polyline
                     (fun a b =>
                        {| from := a; to := b; lineWidth := sz;
                           globalCompositeOperation :=
                             if Tool_eqb tl erase then "destination-out"
                             else "source-over";
                           strokeStyle :=
                             if Tool_eqb tl erase then "rgba(0,0,0,1)" else co |})
                     a ps)%list |},
       map Stroked
           (polyline
              (fun a b =>
                 {| from := a; to := b; lineWidth := sz;
                    globalCompositeOperation :=
                      if Tool_eqb tl erase then "destination-out"
                      else "source-over";
                    strokeStyle :=
                      if Tool_eqb tl erase then "rgba(0,0,0,1)" else co |})
              a ps)).
Proof.
  intros Htl. induction ps as [|p ps IH]; intros a di bm.
  - simpl. rewrite orb_false_r, app_nil_r. reflexivity.
  - cbn [map].
    match goal with
    | |- run ?S (PointerMove p :: ?es) = _ =>
        change (run S (PointerMove p :: es))
          with (let '(s1, ops1) := step S (PointerMove p) in
                let '(s2, ops2) := run s1 es in (s2, (ops1 ++ ops2)%list));
        assert (Hstep : step S (PointerMove p)
                        = ({| canvas := true; context2d := true; drawing := true;
                              lastPoint := Some p; lineStart := ls; dirty := true;
                              tool := tl; color := co; size := sz;
                              canvasSize := csz;
                              bitmap := (bm ++ [configuredStroke S a p])%list |},
                           [Stroked (configuredStroke S a p)]))
          by (destruct tl; try discriminate; destruct di; reflexivity)
    end.
    rewrite Hstep, IH, (last_cons ps p a).
    cbn [polyline map app length Nat.eqb negb orb].
    rewrite orb_true_r, <- app_assoc. reflexivity.
Qed.

(** The moves of a pressed pointer with the line tool. *)
Lemma line_moves (co : string) (sz : Z) (csz : Size)
    (ls : option Point) (ps : list Point) :
  forall (a : Point) (di : bool) (bm : list Stroke),
    run {| canvas := true; context2d := true; drawing := true;
           lastPoint := Some a; lineStart := ls; dirty := di;
           tool := line; color := co; size := sz; canvasSize := csz;
           bitmap := bm |}
        (map PointerMove ps)
    = ({| canvas := true; context2d := true; drawing := true;
          lastPoint := Some (last ps a); lineStart := ls;
          dirty := di || negb (length ps =? 0)%nat;
          tool := line; color := co; size := sz; canvasSize := csz;
          bitmap := bm |},
       []).
Proof.
  induction ps as [|p ps IH]; intros a di bm.
  - simpl. rewrite orb_false_r. reflexivity.
  - cbn [map].
    match goal with
    | |- run ?S (PointerMove p :: ?es) = _ =>
        change (run S (PointerMove p :: es))
          with (let '(s1, ops1) := step S (PointerMove p) in
                let '(s2, ops2) := run s1 es in (s2, (ops1 ++ ops2)%list));
        assert (Hstep : step S (PointerMove p)
                        = ({| canvas := true; context2d := true; drawing := true;
                              lastPoint := Some p; lineStart := ls; dirty := true;
                              tool := line; color := co; size := sz;
                              canvasSize := csz; bitmap := bm |},
                           []))
          by (destruct di; reflexivity)
    end.
    rewrite Hstep, IH, (last_cons ps p a).
    cbn [app length Nat.eqb negb orb].
    rewrite orb_true_r. reflexivity.
Qed.

(** X19: on the mounted component, a press, any moves and a release with
    the pen or the eraser draw the path through the pointer positions, one
    stroke from each position to the next in the width and colour chosen
    (the eraser with "destination-out"), and nothing for the release; the
    canvas gains those strokes, the gesture is over, and the surface is
    flagged as soon as there was a move. *)
Theorem freehand_gesture_draws_the_path :
  forall (s : State) (p0 q : Point) (ps : list Point),
    canvas s = true ->
    context2d s = true ->
    tool s <> line ->
    let r := run s (PointerDown p0 :: map PointerMove ps ++ [PointerUp q]) in
    snd r = map Stroked (polyline (configuredStroke s) p0 ps)
    /\ bitmap (fst r) = (bitmap s ++ polyline (configuredStroke s) p0 ps)%list
    /\ dirty (fst r) = dirty s || negb (length ps =? 0)%nat
    /\ drawing (fst r) = false
    /\ lastPoint (fst r) = None
    /\ lineStart (fst r) = None
    /\ Forall (fun k => globalCompositeOperation k
                        = if Tool_eqb (tool s) erase then "destination-out"
                          else "source-over")
              (polyline (configuredStroke s) p0 ps).
Proof.
  intros s p0 q ps Hc Hx Ht. cbv zeta.
  destruct s as [cv cx dr lp ls di tl co sz csz bm]. simpl in Hc, Hx, Ht.
  subst cv cx.
  assert (Htl : Tool_eqb tl line = false) by (destruct tl; try reflexivity; contradiction).
  change (PointerDown p0 :: map PointerMove ps ++ [PointerUp q])
    with ([PointerDown p0] ++ (map PointerMove ps ++ [PointerUp q]))%list.
  rewrite run_app.
  change (run _ [PointerDown p0])
    with ({| canvas := true; context2d := true; drawing := true;
             lastPoint := Some p0; lineStart := Some p0; dirty := di;
             tool := tl; color := co; size := sz; canvasSize := csz;
             bitmap := bm |}, @nil CanvasOp).
  cbn [fst snd app]. rewrite run_app, (freehand_moves tl co sz csz _ ps Htl).
  cbn [fst snd].
  assert (Hup : forall lp0 di0 bm0,
             run {| canvas := true; context2d := true; drawing := true;
                    lastPoint := lp0; lineStart := Some p0; dirty := di0;
                    tool := tl; color := co; size := sz; canvasSize := csz;
                    bitmap := bm0 |} [PointerUp q]
             = ({| canvas := true; context2d := true; drawing := false;
                   lastPoint := None; lineStart := None; dirty := di0;
                   tool := tl; color := co; size := sz; canvasSize := csz;
                   bitmap := bm0 |}, [])).
  { intros lp0 di0 bm0. destruct tl; try discriminate; reflexivity. }
  rewrite Hup. cbn [fst snd bitmap dirty drawing lastPoint lineStart tool].
  rewrite app_nil_r.
  repeat split.
  clear. revert p0. induction ps as [|p ps IH]; intros p0; simpl; constructor.
  - reflexivity.
  - apply IH.
Qed.

Lemma freehand_gesture_draws_the_path_witness :
  snd (run initial [PointerDown Examples.p0; PointerMove Examples.p1;
                    PointerMove Examples.p0; PointerUp Examples.p1])
  = [Stroked (configuredStroke initial Examples.p0 Examples.p1);
     Stroked (configuredStroke initial Examples.p1 Examples.p0)].
Proof.
  exact (proj1 (freehand_gesture_draws_the_path initial Examples.p0 Examples.p1
                  [Examples.p1; Examples.p0] eq_refl eq_refl
                  ltac:(discriminate))).
Defined.

(** X20: with the line tool, a press, any moves and a release draw exactly
    one stroke, from the point of the press to the point of the release,
    whatever the moves in between; the surface is flagged afterwards. *)
Theorem line_gesture_draws_one_segment :
  forall (s : State) (p0 q : Point) (ps : list Point),
    canvas s = true ->
    context2d s = true ->
    tool s = line ->
    let r := run s (PointerDown p0 :: map PointerMove ps ++ [PointerUp q]) in
    snd r = [Stroked {| from := p0; to := q; lineWidth := size s;
                        globalCompositeOperation := "source-over";
                        strokeStyle := color s |}]
    /\ bitmap (fst r)
       = (bitmap s ++ [{| from := p0; to := q; lineWidth := size s;
                          globalCompositeOperation := "source-over";
                          strokeStyle := color s |}])%list
    /\ dirty (fst r) = true
    /\ drawing (fst r) = false.
Proof.
  intros s p0 q ps Hc Hx Ht. cbv zeta.
  destruct s as [cv cx dr lp ls di tl co sz csz bm]. simpl in Hc, Hx, Ht.
  subst cv cx tl.
  change (PointerDown p0 :: map PointerMove ps ++ [PointerUp q])
    with ([PointerDown p0] ++ (map PointerMove ps ++ [PointerUp q]))%list.
  rewrite run_app.
  change (run _ [PointerDown p0])
    with ({| canvas := true; context2d := true; drawing := true;
             lastPoint := Some p0; lineStart := Some p0; dirty := di;
             tool := line; color := co; size := sz; canvasSize := csz;
             bitmap := bm |}, @nil CanvasOp).
  cbn [fst snd app]. rewrite run_app, (line_moves co sz csz _ ps).
  cbn [fst snd app].
  destruct (di || negb (length ps =? 0)%nat); repeat split.
Qed.

Lemma line_gesture_draws_one_segment_witness :
  snd (run initial Examples.sketch)
  = [Stroked (configuredStroke initial Examples.p0 Examples.p1);
     ClearRect;
     Stroked {| from := Examples.p0; to := Examples.p1; lineWidth := 3;
                globalCompositeOperation := "source-over";
                strokeStyle := "#0b1420" |}]
  /\ snd (run (setTool line initial)
              (PointerDown Examples.p0 :: map PointerMove [Examples.p0]
               ++ [PointerUp Examples.p1]))
     = [Stroked {| from := Examples.p0; to := Examples.p1; lineWidth := 3;
                   globalCompositeOperation := "source-over";
                   strokeStyle := "#0b1420" |}].
Proof.
  split; [reflexivity|].
  exact (proj1 (line_gesture_draws_one_segment (setTool line initial)
                  Examples.p0 Examples.p1 [Examples.p0]
                  eq_refl eq_refl eq_refl)).
Defined.

Lemma step_without_press (s : State) (e : Event) :
  (forall p, e <> PointerDown p) ->
  drawing s = false -> dirty s = false ->
  drawing (fst (step s e)) = false
  /\ dirty (fst (step s e)) = false
  /\ forall k, ~ In (Stroked k) (snd (step s e)).
Proof.
  intros He Hd Hf.
  destruct s as [cv cx dr lp ls di tl co sz csz bm]. simpl in Hd, Hf. subst dr di.
  destruct e; try (exfalso; eapply He; reflexivity); simpl;
    unfold handlePointerMove, handlePointerUp, clearCanvas, handleResize; simpl;
    try (destruct cv; [destruct cx|]; simpl);
    (split; [reflexivity|split; [reflexivity|]]);
    intros k H; simpl in H; intuition discriminate.
Qed.

(** X21: as long as the pointer is never pressed on the canvas, nothing is
    drawn, whatever else happens (moves, releases, leaves, clears, tool,
    colour and size changes, resizes): no stroke is made, the surface is not
    flagged and there is no snapshot. *)
Theorem no_press_no_drawing :
  forall (toDataURL : list Stroke -> string) (es : list Event),
    (forall p, ~ In (PointerDown p) es) ->
    (forall k, ~ In (Stroked k) (snd (run initial es)))
    /\ hasDrawing (fst (run initial es)) = false
    /\ getDataUrl toDataURL (fst (run initial es)) = None.
Proof.
  intros toDataURL es Hes.
  assert (Hgen : forall es0 s0,
             (forall p, ~ In (PointerDown p) es0) ->
             drawing s0 = false -> dirty s0 = false ->
             dirty (fst (run s0 es0)) = false
             /\ forall k, ~ In (Stroked k) (snd (run s0 es0))).
  { induction es0 as [|e es0 IH]; intros s0 Hno Hd Hf; simpl.
    - split; [exact Hf|]. intros k [].
    - assert (He : forall p, e <> PointerDown p).
      { intros p ->. apply (Hno p). left. reflexivity. }
      destruct (step_without_press s0 e He Hd Hf) as (Hd1 & Hf1 & Hk1).
      destruct (step s0 e) as [s1 ops1]. simpl in Hd1, Hf1, Hk1.
      assert (Hno' : forall p, ~ In (PointerDown p) es0).
      { intros p Hp. apply (Hno p). right. exact Hp. }
      destruct (IH s1 Hno' Hd1 Hf1) as (Hf2 & Hk2).
      destruct (run s1 es0) as [s2 ops2]. simpl in *.
      split; [exact Hf2|]. intros k Hk. apply in_app_or in Hk.
      destruct Hk as [Hk|Hk]; [exact (Hk1 k Hk)|exact (Hk2 k Hk)]. }
  destruct (Hgen es initial Hes eq_refl eq_refl) as (Hf & Hk).
  split; [exact Hk|]. split; [exact Hf|].
  unfold getDataUrl. rewrite Hf. cbn [negb]. rewrite orb_true_r. reflexivity.
Qed.

Lemma no_press_no_drawing_witness :
  getDataUrl (fun _ => "data:image/png;base64,AAA=")
             (fst (run initial [PointerMove Examples.p0; PickTool line;
                                PointerUp Examples.p1; Clear]))
  = None.
Proof.
  apply (no_press_no_drawing (fun _ => "data:image/png;base64,AAA=")
           [PointerMove Examples.p0; PickTool line; PointerUp Examples.p1; Clear]).
  intros p [H|[H|[H|[H|[]]]]]; discriminate H.
Defined.

(** X22: a resize of the mounted component wipes the canvas and leaves the
    flag as it was, and the canvas is never made smaller than 320 by 220;
    so after a resize a flagged surface still returns a snapshot, now of a
    blank canvas. *)
Theorem resize_wipes_but_keeps_flag :
  forall (toDataURL : list Stroke -> string) (es : list Event) (w h : Q),
    let s := fst (run initial es) in
    let s' := fst (run initial (es ++ [Resize w h])) in
    bitmap s' = []
    /\ dirty s' = dirty s
    /\ 320 <= width (canvasSize s') /\ 220 <= height (canvasSize s')
    /\ (dirty s = true -> getDataUrl toDataURL s' = Some (toDataURL [])).
Proof.
  intros toDataURL es w h. cbv zeta. rewrite run_app. cbn [fst].
  destruct (run_canvas es initial) as [Hc _]. simpl in Hc.
  destruct (fst (run initial es)) as [cv cx dr lp ls di tl co sz csz bm].
  simpl in Hc. subst cv. simpl.
  split; [reflexivity|]. split; [reflexivity|].
  split; [apply Z.le_max_l|]. split; [apply Z.le_max_l|].
  intros ->. reflexivity.
Qed.

Lemma resize_wipes_but_keeps_flag_witness :
  getDataUrl (fun strokes => if (length strokes =? 0)%nat then "blank" else "sketch")
             (fst (run initial (Examples.sketch ++ [Resize (600 # 1) (100 # 1)])))
  = Some "blank"
  /\ canvasSize (fst (run initial (Examples.sketch ++ [Resize (600 # 1) (100 # 1)])))
     = {| width := 600; height := 220 |}.
Proof.
  split; [|reflexivity].
  exact (proj2 (proj2 (proj2 (proj2
           (resize_wipes_but_keeps_flag
              (fun strokes => if (length strokes =? 0)%nat then "blank" else "sketch")
              Examples.sketch (600 # 1) (100 # 1))))) eq_refl).
Defined.

End WhiteboardMore.

(** * Properties of the speech bridge *)

Section SpeechClaims.
Import JS Speech.

Lemma find_first {T : Type} (f : T -> bool) (l : list T) (v : T) :
  find f l = Some v ->
  f v = true
  /\ exists before after,
       l = (before ++ v :: after)%list
       /\ forall x, In x before -> f x = false.
Proof.
  induction l as [|a l IH]; simpl; [discriminate|].
  destruct (f a) eqn:E.
  - intros H. injection H as <-. split; [exact E|].
    exists [], l. split; [reflexivity|]. intros x [].
  - intros H. destruct (IH H) as (Hv & before & after & -> & Hb).
    split; [exact Hv|]. exists (a :: before), after. split; [reflexivity|].
    intros x [<-|Hx]; [exact E|exact (Hb x Hx)].
Qed.




(** X24: [speakText] does nothing when the browser has no speech synthesis
    or while no voice list has arrived.  Otherwise it cancels what is being
    said and then speaks one utterance with the given text at rate 1 and
    pitch 1; its voice is the first voice of the list whose language tag
    starts with "en", and the default voice when the list has none. *)
Theorem speak_text_uses_first_english_voice :
  forall (supported : bool) (voices : list Voice) (changes : list (list Voice))
         (text : string),
    (supported = false \/ getVoices voices changes = None ->
     speakText supported voices changes text = [])
    /\ (forall vs,
           supported = true -> getVoices voices changes = Some vs ->
           exists u,
             speakText supported voices changes text = [Cancel; SpeakUtterance u]
             /\ utterance_text u = text /\ rate u = 1 /\ pitch u = 1
             /\ (forall v, voice u = Some v ->
                   startsWith "en" (lang v) = true
                   /\ exists before after,
                        vs = (before ++ v :: after)%list
                        /\ forall x, In x before -> startsWith "en" (lang x) = false)
             /\ (voice u = None <->
                 forall x, In x vs -> startsWith "en" (lang x) = false)).
Proof.
  intros supported voices changes text. unfold speakText. split.
  - intros [->|H]; [reflexivity|]. rewrite H. destruct supported; reflexivity.
  - intros vs -> Hv. rewrite Hv. cbn [negb].
    eexists. split; [reflexivity|]. cbn [utterance_text rate pitch voice].
    split; [reflexivity|]. split; [reflexivity|]. split; [reflexivity|]. split.
    + intros v Hf. exact (find_first _ vs v Hf).
    + split.
      * intros Hn x Hx. exact (find_none _ vs Hn x Hx).
      * intros Hall. destruct (find _ vs) as [v|] eqn:E; [|reflexivity].
        apply find_some in E. destruct E as (Hin & Hen).
        rewrite (Hall v Hin) in Hen. discriminate.
Qed.

Lemma speak_text_uses_first_english_voice_witness :
  speakText true Examples.voices [] "Voice ready."
  = [Cancel;
     SpeakUtterance {| utterance_text := "Voice ready.";
                       voice := Some {| lang := "en-GB"; voiceName := "Daniel" |};
                       rate := 1; pitch := 1 |}]
  /\ speakText false Examples.voices [] "Voice ready." = [].
Proof.
  split; [reflexivity|].
  apply (proj1 (speak_text_uses_first_english_voice false Examples.voices []
                  "Voice ready.")).
  left. reflexivity.
Defined.

End SpeechClaims.

Section RelayFailure.
Import JS Relay.

(** X25: when the upstream call answers with a status from 300 to 599 other
    than 304, the handler makes no second call and answers with that same
    status and the upstream body as it is, without the CORS headers and
    without a content type of its own.  When the upstream status is 304,
    below 200 or above 599, no response can be built from it with a body:
    the handler throws after its one call. *)
Theorem relay_upstream_failure_is_relayed :
  forall (request : Request) (env : Env)
         (upstream : GeminiRequest -> option GeminiResponse)
         (payload : RequestPayload) (geminiResponse : GeminiResponse),
    method request = "POST" ->
    json request = Some payload ->
    truthy_opt (GEMINI_API_KEY env) = true ->
    upstream (buildUpstream payload env) = Some geminiResponse ->
    (300 <= upstream_status geminiResponse <= 599 ->
     upstream_status geminiResponse <> 304 ->
     fetch request env upstream
     = ([buildUpstream payload env],
        Returned {| status := upstream_status geminiResponse;
                    headers := [];
                    body := TextBody (upstream_text geminiResponse) |})
     /\ hasCors {| status := upstream_status geminiResponse;
                   headers := [];
                   body := TextBody (upstream_text geminiResponse) |} = false)
    /\ (upstream_status geminiResponse < 200
        \/ upstream_status geminiResponse = 304
        \/ 599 < upstream_status geminiResponse ->
        fetch request env upstream = ([buildUpstream payload env], Thrown)).
Proof.
  intros request env upstream payload g Hm Hj Hk Hu.
  rewrite (fetch_post _ _ upstream _ Hm Hj Hk), Hu.
  split.
  - intros Hs H304.
    assert (Hok : ok g = false).
    { unfold ok. apply andb_false_iff. right. apply Z.leb_gt. lia. }
    assert (Hc : constructible (upstream_status g) (TextBody (upstream_text g))
                 = true).
    { unfold constructible, nullBodyStatus.
      repeat (apply andb_true_intro; split); try (apply Z.leb_le; lia).
      rewrite negb_true_iff. repeat (apply orb_false_intro); apply Z.eqb_neq; lia. }
    rewrite Hok, Hc. cbn [negb]. split; reflexivity.
  - intros Hs.
    assert (Hok : ok g = false).
    { unfold ok. apply andb_false_iff.
      destruct Hs as [Hs|[Hs|Hs]];
        [left|right|right]; apply Z.leb_gt; lia. }
    assert (Hc : constructible (upstream_status g) (TextBody (upstream_text g))
                 = false).
    { unfold constructible, nullBodyStatus.
      destruct Hs as [Hs|[Hs|Hs]].
      - apply andb_false_iff. left. apply andb_false_iff. left.
        apply Z.leb_gt. lia.
      - rewrite Hs. reflexivity.
      - apply andb_false_iff. left. apply andb_false_iff. right.
        apply Z.leb_gt. lia. }
    rewrite Hok, Hc. reflexivity.
Qed.

Lemma relay_upstream_failure_is_relayed_witness :
  fetch example_request example_env
        (fun _ => Some {| upstream_status := 429;
                          upstream_text := "quota exceeded";
                          upstream_json := None |})
  = ([buildUpstream example_conversation example_env],
     Returned {| status := 429; headers := [];
                 body := TextBody "quota exceeded" |})
  /\ fetch example_request example_env
           (fun _ => Some {| upstream_status := 304;
                             upstream_text := "";
                             upstream_json := None |})
     = ([buildUpstream example_conversation example_env], Thrown).
Proof.
  split.
  - apply (proj1 (relay_upstream_failure_is_relayed example_request example_env
                    (fun _ => Some {| upstream_status := 429;
                                      upstream_text := "quota exceeded";
                                      upstream_json := None |})
                    example_conversation
                    {| upstream_status := 429; upstream_text := "quota exceeded";
                       upstream_json := None |}
                    eq_refl eq_refl eq_refl eq_refl)
                 ltac:(cbn; lia) ltac:(cbn; lia)).
  - apply (proj2 (relay_upstream_failure_is_relayed example_request example_env
                    (fun _ => Some {| upstream_status := 304;
                                      upstream_text := "";
                                      upstream_json := None |})
                    example_conversation
                    {| upstream_status := 304; upstream_text := "";
                       upstream_json := None |}
                    eq_refl eq_refl eq_refl eq_refl)).
    right. left. reflexivity.
Defined.

End RelayFailure.
